(** * SiteReveal: the serverless handlers [generate.js] and [api/fetch.js]

    A shallow embedding of the two request handlers and of the in-memory
    admission controller ([checkRateLimit]) that guards the generation
    endpoint, with the properties of the behavioural specification proved
    over it.

    Conventions of the embedding.
    - Times are the integers [Date.now()] returns (milliseconds since the
      epoch), as [Z].  Every quantity the limiter computes from them is an
      integer far below 2^53, where JavaScript's number arithmetic is exact;
      [Math.ceil (a / 60000)] is the integer ceiling [ceil_div a 60000].
    - The module-level variables [ipStore], [dailyCount] and [dailyReset]
      are one record [State], passed in and returned; the clock reading is an
      argument of the function that calls [Date.now()].
    - A string is its sequence of code units, one character of the
      embedding for each.  A header value has one code unit per byte, so
      [trim] sees all of its white space; of a body string the handlers
      read the length and pass the content on.
    - [src/unnamed/part_000] is a second copy of [generate.js]: the same
      code up to comments and the text of one error message ('Invalid
      request body' for 'Invalid request'). *)

From stdpp Require Import gmap strings list pretty sorting.
From Stdlib Require Import Ascii ZArith Lia.

Open Scope Z_scope.

(** ** JavaScript values

    What a parsed request body or an upstream error body can hold. *)

Module Js.

#[warnings="-register-all"]
Inductive JsVal : Type :=
  | JUndefined
  | JNull
  | JBool (b : bool)
  | JNumber (n : Z)
  | JString (s : string)
  | JArray (items : list JsVal)
  | JObject (fields : gmap string JsVal).

(** [!!v] *)
Definition truthy (v : JsVal) : bool :=
  match v with
  | JUndefined | JNull => false
  | JBool b => b
  | JNumber n => bool_decide (n ≠ 0)
  | JString s => bool_decide (s ≠ "")
  | JArray _ | JObject _ => true
  end.

(** [typeof v === 'string'] *)
Definition isString (v : JsVal) : bool :=
  match v with JString _ => true | _ => false end.

(** [a || b] *)
Definition or (a b : JsVal) : JsVal := if truthy a then a else b.

(** [v.k] for a key [k] that names no built-in property ([prompt], [url],
    [error], [message]) and a [v] that is neither [undefined] nor [null]:
    an own property of an object, [undefined] on everything else. *)
Definition field (k : string) (v : JsVal) : JsVal :=
  match v with
  | JObject fields => default JUndefined (fields !! k)
  | _ => JUndefined
  end.

(** [v?.k] *)
Definition optField (k : string) (v : JsVal) : JsVal :=
  match v with
  | JUndefined | JNull => JUndefined
  | _ => field k v
  end.

(** [s.length], read in the source only where [s] is known to be a
    string. *)
Definition strLength (v : JsVal) : Z :=
  match v with JString s => Z.of_nat (String.length s) | _ => 0 end.

(** The string a [JString] holds. *)
Definition strOf (v : JsVal) : string :=
  match v with JString s => s | _ => "" end.

(** [{ error: e }] *)
Definition errorObject (e : JsVal) : JsVal := JObject {[ "error" := e ]}.

End Js.

(** ** HTTP requests and responses, as the handlers use them *)

Module Http.
Import Js.

Record Socket : Type := mkSocket { remoteAddress : option string }.

Record Request : Type := mkRequest {
  method : string;
  headers : gmap string string;
  socket : option Socket;
  body : JsVal
}.

(** What the handler did with [res]: [res.status(c).end()],
    [res.status(c).json(v)], or the relayed event stream (status 200, the
    chunks written before [res.end()]). *)
Inductive Payload : Type :=
  | End
  | Json (v : JsVal)
  | EventStream (chunks : list string).

Record Response : Type := mkResponse {
  status : Z;
  payload : Payload
}.

(** A handler either answers or lets an exception escape. *)
Inductive Outcome : Type :=
  | Responded (r : Response)
  | Thrown.

Definition jsonError (code : Z) (msg : string) : Outcome :=
  Responded {| status := code; payload := Json (errorObject (JString msg)) |}.

End Http.

(** ** [generate.js] *)

Module Generate.
Import Js Http.

Definition RATE_LIMIT_MAX : Z := 3.
Definition RATE_LIMIT_WINDOW : Z := 60 * 60 * 1000.
Definition DAILY_GLOBAL_CAP : Z := 100.

(** [24 * 60 * 60 * 1000], written twice in the source. *)
Definition DAY_MS : Z := 24 * 60 * 60 * 1000.

Record State : Type := mkState {
  ipStore : gmap string (list Z);
  dailyCount : Z;
  dailyReset : Z
}.

(** The state right after the module is loaded at clock reading [boot]. *)
Definition initial (boot : Z) : State :=
  {| ipStore := ∅; dailyCount := 0; dailyReset := boot + DAY_MS |}.

(** *** [getIP] *)

(** [s.split(',')[0]]: the code units before the first comma, all of [s]
    when it has none. *)
Fixpoint firstField (s : string) : string :=
  match s with
  | EmptyString => EmptyString
  | String c rest =>
      if bool_decide (c = ","%char) then EmptyString
      else String c (firstField rest)
  end.

(** The code units [String.prototype.trim] strips, among those a header
    value can hold (U+0000 to U+00FF): tab, line feed, vertical tab, form
    feed, carriage return, space and no-break space. *)
Definition isSpace (c : ascii) : bool :=
  let n := nat_of_ascii c in
  bool_decide (9 ≤ n ≤ 13 ∨ n = 32 ∨ n = 160)%nat.

Fixpoint trimStart (s : string) : string :=
  match s with
  | EmptyString => EmptyString
  | String c rest => if isSpace c then trimStart rest else s
  end.

Fixpoint trimEnd (s : string) : string :=
  match s with
  | EmptyString => EmptyString
  | String c rest =>
      match trimEnd rest with
      | EmptyString => if isSpace c then EmptyString else String c EmptyString
      | kept => String c kept
      end
  end.

(** [s.trim()] *)
Definition trim (s : string) : string := trimEnd (trimStart s).

(** [a || b] where [a] and [b] are each a string or [undefined]: the empty
    string and [undefined] are the two falsy ones. *)
Definition orElse (a b : option string) : option string :=
  match a with
  | Some s => if bool_decide (s ≠ "") then a else b
  | None => b
  end.

(** [getIP(req)].  The optional chain on the forwarded-for header skips
    [split], the index and [trim] together when the header is absent;
    the last operand of the [||]-chain is a non-empty literal, so the chain
    always yields a string. *)
Definition getIP (req : Request) : string :=
  default "unknown"
    (orElse
       (orElse
          (orElse
             ((λ v, trim (firstField v)) <$> headers req !! "x-forwarded-for")
             (headers req !! "x-real-ip"))
          (socket req ≫= remoteAddress))
       (Some "unknown")).

(** *** [checkRateLimit] *)

(** The object [checkRateLimit] returns: [{ allowed, reason }], where
    [reason] is absent on the allowed path. *)
Record Verdict : Type := mkVerdict {
  allowed : bool;
  reason : option string
}.

(** [Math.ceil (a / b)] for integers [a] and [b > 0]. *)
Definition ceil_div (a b : Z) : Z := - ((- a) / b).

(** [ipStore.get(ip) || []]: an array is truthy even when empty. *)
Definition stored (st : State) (ip : string) : list Z :=
  default [] (ipStore st !! ip).

(** [.filter(t => now - t < RATE_LIMIT_WINDOW)] *)
Definition live (now : Z) (ts : list Z) : list Z :=
  filter (λ t, now - t < RATE_LIMIT_WINDOW) ts.

(** [timestamps[0]]; it is read only where the array has at least
    [RATE_LIMIT_MAX] elements. *)
Definition oldest (ts : list Z) : Z := default 0 (head ts).

Definition retryAfter (now : Z) (timestamps : list Z) : Z :=
  ceil_div (oldest timestamps + RATE_LIMIT_WINDOW - now) 60000.

Definition dailyReason : string :=
  "Daily limit reached. Please try again tomorrow.".

Definition windowReason (retry : Z) : string :=
  "You've used your " +:+ pretty RATE_LIMIT_MAX
    +:+ " free analyses for this hour. Try again in ~" +:+ pretty retry
    +:+ " minute" +:+ (if bool_decide (retry ≠ 1) then "s" else "") +:+ ".".

(** Lines 29-33: the daily counter starts over once the clock has passed
    [dailyReset]. *)
Definition dailyTick (now : Z) (st : State) : State :=
  if bool_decide (now > dailyReset st)
  then {| ipStore := ipStore st; dailyCount := 0; dailyReset := now + DAY_MS |}
  else st.

(** [checkRateLimit(ip)], with the reading of [Date.now()] as [now]. *)
Definition checkRateLimit (now : Z) (ip : string) (st : State)
  : Verdict * State :=
  let st := dailyTick now st in
  if bool_decide (dailyCount st >= DAILY_GLOBAL_CAP) then
    ({| allowed := false; reason := Some dailyReason |}, st)
  else
    let timestamps := live now (stored st ip) in
    if bool_decide (Z.of_nat (length timestamps) >= RATE_LIMIT_MAX) then
      ({| allowed := false;
          reason := Some (windowReason (retryAfter now timestamps)) |}, st)
    else
      ({| allowed := true; reason := None |},
       {| ipStore := <[ip := timestamps ++ [now]]> (ipStore st);
          dailyCount := dailyCount st + 1;
          dailyReset := dailyReset st |}).

(** A sequence of calls, one at a time: each is a clock reading and an
    identifier.  The verdicts come back in call order. *)
Fixpoint run (calls : list (Z * string)) (st : State)
  : list Verdict * State :=
  match calls with
  | [] => ([], st)
  | (now, ip) :: rest =>
      let '(v, st1) := checkRateLimit now ip st in
      let '(vs, st2) := run rest st1 in
      (v :: vs, st2)
  end.

(** *** [handler] *)

(** What one invocation reads from outside the process: the clock, the
    environment variable, and what the call to the upstream API does. *)
Inductive Upstream : Type :=
  | UpstreamThrows
      (* [fetch] rejects; nothing in [handler] catches it *)
  | UpstreamNotOk (err : JsVal)
      (* [!anthropicRes.ok]; [err] is the parsed error body, or [{}] when
         parsing it failed *)
  | UpstreamOk (chunks : list string).
      (* the decoded chunks read before the stream was done or a read threw *)

Record World : Type := mkWorld {
  clock : Z;
  ANTHROPIC_API_KEY : option string;
  anthropic : string → string → Upstream   (* API key, prompt *)
}.

(** [!prompt || typeof prompt !== 'string' || prompt.length < 20] *)
Definition promptInvalid (prompt : JsVal) : bool :=
  negb (truthy prompt) || negb (isString prompt)
  || bool_decide (strLength prompt < 20).

Definition handler (w : World) (req : Request) (st : State)
  : Outcome * State :=
  if bool_decide (method req = "OPTIONS") then
    (Responded {| status := 200; payload := End |}, st)
  else if bool_decide (method req ≠ "POST") then
    (jsonError 405 "Method not allowed", st)
  else
    let ip := getIP req in
    let '(verdict, st) := checkRateLimit (clock w) ip st in
    if negb (allowed verdict) then
      (Responded {| status := 429;
                    payload := Json (errorObject
                      (from_option JString JUndefined (reason verdict))) |},
       st)
    else
      let prompt := field "prompt" (or (body req) (JObject ∅)) in
      if promptInvalid prompt then
        (jsonError 400 "Invalid request", st)
      else if bool_decide (strLength prompt > 12000) then
        (jsonError 400 "Prompt too large", st)
      else
        match orElse (ANTHROPIC_API_KEY w) None with
        | None =>
            (jsonError 500 "Server misconfiguration — API key not set", st)
        | Some apiKey =>
            match anthropic w apiKey (strOf prompt) with
            | UpstreamThrows => (Thrown, st)
            | UpstreamNotOk err =>
                (Responded {| status := 502;
                              payload := Json (errorObject
                                (or (optField "message" (optField "error" err))
                                    (JString "Upstream API error"))) |},
                 st)
            | UpstreamOk chunks =>
                (Responded {| status := 200; payload := EventStream chunks |},
                 st)
            end
        end.

Definition minutes (n : Z) : Z := n * 60000.

End Generate.

(** ** [api/fetch.js] *)

Module Fetch.
Import Js Http.

(** The two properties of a parsed [URL] the handler reads. *)
Record URL : Type := mkURL {
  protocol : string;
  href : string
}.

(** What [await response.text()] does. *)
Inductive BodyRead : Type :=
  | BodyText (html : string)
  | BodyThrows (message : string).

Record SiteResponse : Type := mkSiteResponse {
  ok : bool;
  siteStatus : Z;
  text : BodyRead
}.

(** What [await fetch(parsed.href, ...)] does. *)
Inductive FetchResult : Type :=
  | FetchThrows (message : string)
  | FetchReturns (response : SiteResponse).

(** Lines 23-42: what the handler answers once [fetch] has settled.  A
    failure to read the body is caught by the same [catch] as a failure of
    [fetch] itself. *)
Definition relay (result : FetchResult) : Outcome :=
  match result with
  | FetchThrows message =>
      jsonError 502 ("Could not reach site: " +:+ message)
  | FetchReturns response =>
      if negb (ok response) then
        jsonError 502 ("Site returned " +:+ pretty (siteStatus response))
      else
        match text response with
        | BodyThrows message =>
            jsonError 502 ("Could not reach site: " +:+ message)
        | BodyText html =>
            Responded
              {| status := 200;
                 payload := Json (JObject {[ "html" := JString html ]}) |}
        end
  end.

(** A table standing for the URL parser on the two addresses of the
    specification's example; everything else is refused. *)
Definition exampleParseURL (url : string) : option URL :=
  if bool_decide (url = "https://example.com") then
    Some {| protocol := "https:"; href := "https://example.com/" |}
  else if bool_decide (url = "ftp://x.com") then
    Some {| protocol := "ftp:"; href := "ftp://x.com/" |}
  else None.

Section Handler.

(** The platform's URL parser, [new URL(url)]: [None] when it throws. *)
Variable parseURL : string → option URL.

(** The network, as seen through the platform's [fetch]. *)
Variable fetchSite : string → FetchResult.

(** [['http:', 'https:'].includes(p)] *)
Definition allowedProtocol (p : string) : bool :=
  bool_decide (p ∈ ["http:"; "https:"]).

Definition handler (req : Request) : Outcome :=
  if bool_decide (method req = "OPTIONS") then
    Responded {| status := 200; payload := End |}
  else if bool_decide (method req ≠ "POST") then
    jsonError 405 "Method not allowed"
  else
    let url := field "url" (or (body req) (JObject ∅)) in
    if negb (truthy url) || negb (isString url) then
      jsonError 400 "Missing url"
    else
      match parseURL (strOf url) with
      | None => jsonError 400 "Invalid URL"
      | Some parsed =>
          if negb (allowedProtocol (protocol parsed)) then
            jsonError 400 "Invalid URL"
          else relay (fetchSite (href parsed))
      end.

End Handler.

End Fetch.

(** ** What the properties are stated with *)

Module Props.
Import Js Http Generate.

(** The verdicts of the three return statements of [checkRateLimit]. *)
Definition allowVerdict : Verdict := {| allowed := true; reason := None |}.
Definition dailyDenied : Verdict :=
  {| allowed := false; reason := Some dailyReason |}.
Definition windowDenied (retry : Z) : Verdict :=
  {| allowed := false; reason := Some (windowReason retry) |}.

(** The state an allowed call at [now] for [ip] leaves behind. *)
Definition recorded (now : Z) (ip : string) (st : State) : State :=
  let st := dailyTick now st in
  {| ipStore := <[ip := live now (stored st ip) ++ [now]]> (ipStore st);
     dailyCount := dailyCount st + 1;
     dailyReset := dailyReset st |}.

(** No timestamp stored for [ip] lies after the clock reading [now]. *)
Definition pastOf (now : Z) (st : State) (ip : string) : Prop :=
  Forall (λ t, t ≤ now) (stored st ip).

(** Every stored timestamp, of every identifier, is at most [now]. *)
Definition allPast (now : Z) (st : State) : Prop :=
  ∀ ip, pastOf now st ip.

(** The clock readings of [calls] never decrease, starting from [from]. *)
Fixpoint clockMonotone (from : Z) (calls : list (Z * string)) : Prop :=
  match calls with
  | [] => True
  | (now, _) :: rest => from ≤ now ∧ clockMonotone now rest
  end.

(** The clock reading of the last call, [from] when there is none. *)
Fixpoint lastClock (from : Z) (calls : list (Z * string)) : Z :=
  match calls with
  | [] => from
  | (now, _) :: rest => lastClock now rest
  end.

(** Each call of the sequence, at the state it meets, finds the daily
    counter below the cap and fewer than [RATE_LIMIT_MAX] timestamps of its
    identifier inside the window. *)
Fixpoint underQuota (calls : list (Z * string)) (st : State) : Prop :=
  match calls with
  | [] => True
  | (now, ip) :: rest =>
      dailyCount (dailyTick now st) < DAILY_GLOBAL_CAP
      ∧ Z.of_nat (length (live now (stored st ip))) < RATE_LIMIT_MAX
      ∧ underQuota rest (checkRateLimit now ip st).2
  end.

(** The bounds the limiter keeps: at most [RATE_LIMIT_MAX] timestamps per
    identifier, at most [DAILY_GLOBAL_CAP] on the daily counter. *)
Definition bounded (st : State) : Prop :=
  (∀ ip ts, ipStore st !! ip = Some ts →
            Z.of_nat (length ts) ≤ RATE_LIMIT_MAX)
  ∧ dailyCount st ≤ DAILY_GLOBAL_CAP.

(** The status code of an answer, if there is one. *)
Definition statusOf (o : Outcome) : option Z :=
  match o with Responded r => Some (status r) | Thrown => None end.

(** [{ prompt } = req.body || {}] and [{ url } = req.body || {}] *)
Definition promptOf (req : Request) : JsVal :=
  field "prompt" (or (body req) (JObject ∅)).
Definition urlOf (req : Request) : JsVal :=
  field "url" (or (body req) (JObject ∅)).

(** The three sources of the identifier, as the specification lists them:
    each holds of the string it yields, and only when that is non-empty. *)
Definition forwardedFor (req : Request) (s : string) : Prop :=
  ∃ v, headers req !! "x-forwarded-for" = Some v
       ∧ s = trim (firstField v) ∧ s ≠ "".
Definition realIP (req : Request) (s : string) : Prop :=
  headers req !! "x-real-ip" = Some s ∧ s ≠ "".
Definition peerAddress (req : Request) (s : string) : Prop :=
  ∃ sock, socket req = Some sock ∧ remoteAddress sock = Some s ∧ s ≠ "".

(** Strings of white space, and white space at either end of a string. *)
Fixpoint allSpace (s : string) : bool :=
  match s with
  | EmptyString => true
  | String c rest => isSpace c && allSpace rest
  end.
Definition startsWithSpace (s : string) : bool :=
  match s with EmptyString => false | String c _ => isSpace c end.
Fixpoint endsWithSpace (s : string) : bool :=
  match s with
  | EmptyString => false
  | String c EmptyString => isSpace c
  | String _ rest => endsWithSpace rest
  end.
Fixpoint hasComma (s : string) : bool :=
  match s with
  | EmptyString => false
  | String c rest => bool_decide (c = ","%char) || hasComma rest
  end.

(** A world and two requests to instantiate the handler theorems with: the
    clock at ten seconds, a key, an upstream that answers with two chunks;
    a POST from 1.2.3.4 whose prompt has 9 code units, and one whose prompt
    has 26. *)
Definition sampleWorld : World :=
  {| clock := 10000; ANTHROPIC_API_KEY := Some "sk-test";
     anthropic := λ _ _, UpstreamOk ["data: a"; "data: b"] |}.
Definition shortPromptRequest : Request :=
  {| method := "POST"; headers := {[ "x-forwarded-for" := "1.2.3.4" ]};
     socket := None;
     body := JObject {[ "prompt" := JString "too short" ]} |}.
Definition longEnoughRequest : Request :=
  {| method := "POST"; headers := {[ "x-forwarded-for" := "1.2.3.4" ]};
     socket := None;
     body := JObject {[ "prompt" := JString "abcdefghijklmnopqrstuvwxyz" ]} |}.

(** A POST to the fetch endpoint that asks for [url], and a network on
    which every site answers 404 with an empty body. *)
Definition fetchRequest (url : JsVal) : Request :=
  {| method := "POST"; headers := ∅; socket := None;
     body := JObject {[ "url" := url ]} |}.
Definition notFoundSite : string → Fetch.FetchResult :=
  λ _, Fetch.FetchReturns
         {| Fetch.ok := false; Fetch.siteStatus := 404;
            Fetch.text := Fetch.BodyText "" |}.

(** How many calls of [calls] [run] allows from [st]: in all, and among
    those made by [ip]. *)
Definition allowedTotal (calls : list (Z * string)) (st : State) : nat :=
  length (filter (λ v, allowed v = true) (run calls st).1).
Definition allowedFor (ip : string) (calls : list (Z * string)) (st : State)
  : nat :=
  length (filter (λ cv, cv.1.2 = ip ∧ allowed cv.2 = true)
            (zip calls (run calls st).1)).

(** The timestamps of [ip] stored in [st] that are not before [a]. *)
Definition since (a : Z) (st : State) (ip : string) : list Z :=
  filter (λ t, a ≤ t) (stored st ip).

(** [st] with the sequence of [ip] replaced by [ts]. *)
Definition withStored (ip : string) (ts : list Z) (st : State) : State :=
  {| ipStore := <[ip := ts]> (ipStore st);
     dailyCount := dailyCount st; dailyReset := dailyReset st |}.

(** A prompt that passes both length checks. *)
Definition validPrompt (p : JsVal) : Prop :=
  ∃ s, p = JString s ∧ 20 ≤ Z.of_nat (String.length s) ≤ 12000.

(** The requests on which [handler] gets as far as the upstream call: a
    POST that the limiter allows, with a valid prompt, while the API key is
    set and not empty. *)
Definition reachesUpstream (w : World) (req : Request) (st : State) : Prop :=
  method req = "POST"
  ∧ allowed (checkRateLimit (clock w) (getIP req) st).1 = true
  ∧ validPrompt (promptOf req)
  ∧ ∃ key, ANTHROPIC_API_KEY w = Some key ∧ key ≠ "".

(** [w] with another upstream. *)
Definition withUpstream (up : string → string → Upstream) (w : World)
  : World :=
  {| clock := clock w; ANTHROPIC_API_KEY := ANTHROPIC_API_KEY w;
     anthropic := up |}.

(** The fixed part of the per-identifier denial message. *)
Definition windowReasonHead : string :=
  "You've used your 3 free analyses for this hour. Try again in ~".

End Props.

Import Js Http Generate Props.

(** ** The limiter, case by case *)

Lemma ceil_div_spec a b :
  0 < b → b * (ceil_div a b - 1) < a ≤ b * ceil_div a b.
Proof.
  intros Hb. unfold ceil_div.
  pose proof (Z.div_mod (- a) b ltac:(lia)) as Hdm.
  pose proof (Z.mod_pos_bound (- a) b Hb) as Hmod.
  nia.
Qed.

Lemma stored_dailyTick now st ip : stored (dailyTick now st) ip = stored st ip.
Proof. unfold stored, dailyTick. by case_bool_decide. Qed.

Lemma ipStore_dailyTick now st : ipStore (dailyTick now st) = ipStore st.
Proof. unfold dailyTick. by case_bool_decide. Qed.

Lemma dailyTick_late now st :
  now > dailyReset st →
  dailyTick now st
  = {| ipStore := ipStore st; dailyCount := 0; dailyReset := now + DAY_MS |}.
Proof. intros H. unfold dailyTick. by rewrite bool_decide_eq_true_2. Qed.

Lemma dailyTick_early now st : now ≤ dailyReset st → dailyTick now st = st.
Proof. intros H. unfold dailyTick. rewrite bool_decide_eq_false_2; [done|lia]. Qed.

Lemma dailyTick_count now st :
  dailyCount (dailyTick now st) = 0
  ∨ dailyCount (dailyTick now st) = dailyCount st.
Proof. unfold dailyTick. case_bool_decide; auto. Qed.

Lemma check_daily now ip st :
  dailyCount (dailyTick now st) >= DAILY_GLOBAL_CAP →
  checkRateLimit now ip st = (dailyDenied, dailyTick now st).
Proof. intros H. unfold checkRateLimit. by rewrite bool_decide_eq_true_2. Qed.

Lemma check_window now ip st :
  dailyCount (dailyTick now st) < DAILY_GLOBAL_CAP →
  Z.of_nat (length (live now (stored st ip))) >= RATE_LIMIT_MAX →
  checkRateLimit now ip st
  = (windowDenied (retryAfter now (live now (stored st ip))),
     dailyTick now st).
Proof.
  intros Hc Hl. unfold checkRateLimit. cbv zeta.
  rewrite bool_decide_eq_false_2 by lia.
  rewrite stored_dailyTick. by rewrite bool_decide_eq_true_2.
Qed.

Lemma check_allowed now ip st :
  dailyCount (dailyTick now st) < DAILY_GLOBAL_CAP →
  Z.of_nat (length (live now (stored st ip))) < RATE_LIMIT_MAX →
  checkRateLimit now ip st = (allowVerdict, recorded now ip st).
Proof.
  intros Hc Hl. unfold checkRateLimit, recorded. cbv zeta.
  rewrite bool_decide_eq_false_2 by lia.
  rewrite stored_dailyTick. by rewrite bool_decide_eq_false_2 by lia.
Qed.

(** The three cases are exhaustive. *)
Lemma check_cases now ip st :
  checkRateLimit now ip st = (dailyDenied, dailyTick now st)
  ∨ checkRateLimit now ip st
    = (windowDenied (retryAfter now (live now (stored st ip))),
       dailyTick now st)
  ∨ (dailyCount (dailyTick now st) < DAILY_GLOBAL_CAP
     ∧ Z.of_nat (length (live now (stored st ip))) < RATE_LIMIT_MAX
     ∧ checkRateLimit now ip st = (allowVerdict, recorded now ip st)).
Proof.
  destruct (decide (dailyCount (dailyTick now st) >= DAILY_GLOBAL_CAP)).
  { left. by apply check_daily. }
  destruct (decide (Z.of_nat (length (live now (stored st ip)))
                    >= RATE_LIMIT_MAX)).
  { right; left. apply check_window; [lia|done]. }
  right; right. split_and!; [lia|lia|]. apply check_allowed; lia.
Qed.

Lemma stored_recorded now ip st :
  stored (recorded now ip st) ip = live now (stored st ip) ++ [now].
Proof.
  unfold recorded, stored at 1. cbn. rewrite lookup_insert_eq. cbn.
  by rewrite stored_dailyTick.
Qed.

Lemma stored_recorded_ne now ip ip' st :
  ip ≠ ip' → stored (recorded now ip st) ip' = stored st ip'.
Proof.
  intros Hne. unfold recorded, stored. cbn.
  rewrite lookup_insert_ne by done. by rewrite ipStore_dailyTick.
Qed.

Lemma live_in_window now ts : Forall (λ t, now - t < RATE_LIMIT_WINDOW) (live now ts).
Proof.
  apply Forall_forall. intros t Ht. unfold live in Ht.
  by apply list_elem_of_filter in Ht as [? _].
Qed.

Lemma live_sub now ts t : t ∈ live now ts → t ∈ ts.
Proof. unfold live. rewrite list_elem_of_filter. tauto. Qed.

Lemma live_length now ts : (length (live now ts) ≤ length ts)%nat.
Proof. apply length_filter. Qed.

(** The rendering of the retry message, by the value of [retry]. *)
Lemma windowReason_one : windowReason 1 = windowReasonHead +:+ "1 minute.".
Proof. reflexivity. Qed.

Lemma windowReason_other r :
  r ≠ 1 → windowReason r = windowReasonHead +:+ pretty r +:+ " minutes.".
Proof.
  intros Hr. unfold windowReason. rewrite bool_decide_eq_true_2 by done.
  reflexivity.
Qed.



Lemma live_all now ts :
  Forall (λ t, now - t < RATE_LIMIT_WINDOW) ts → live now ts = ts.
Proof.
  unfold live. induction 1 as [|t ts Ht _ IH]; [done|].
  rewrite filter_cons_True by done. by rewrite IH.
Qed.

Lemma live_none now ts :
  Forall (λ t, now - t >= RATE_LIMIT_WINDOW) ts → live now ts = [].
Proof.
  unfold live. induction 1 as [|t ts Ht _ IH]; [done|].
  rewrite filter_cons_False by lia. done.
Qed.

(** One allowed call, when the stored timestamps of [ip] are known. *)
Lemma check_allowed_known now ip st ts k :
  stored st ip = ts →
  Z.of_nat (length (live now ts)) < RATE_LIMIT_MAX →
  dailyCount st ≤ k → 0 ≤ k < DAILY_GLOBAL_CAP →
  checkRateLimit now ip st = (allowVerdict, recorded now ip st)
  ∧ stored (recorded now ip st) ip = live now ts ++ [now]
  ∧ dailyCount (recorded now ip st) ≤ k + 1.
Proof.
  intros Hts Hlen Hk Hcap. subst ts.
  pose proof (dailyTick_count now st) as Hc.
  split_and!.
  - apply check_allowed; [lia|done].
  - apply stored_recorded.
  - unfold recorded; cbn. lia.
Qed.

(** ** Reachable states under a clock that never runs backwards *)

Lemma allPast_initial boot : allPast boot (initial boot).
Proof. intros ip. unfold pastOf, stored, initial; cbn. by rewrite lookup_empty. Qed.

Lemma allPast_mono now now' st : now ≤ now' → allPast now st → allPast now' st.
Proof.
  intros Hle H ip. specialize (H ip). unfold pastOf in *.
  eapply Forall_impl; [exact H|]. cbn. intros; lia.
Qed.

Lemma allPast_check now ip st :
  allPast now st → allPast now (checkRateLimit now ip st).2.
Proof.
  intros H ip'.
  assert (Htick : pastOf now (dailyTick now st) ip').
  { unfold pastOf. rewrite stored_dailyTick. apply H. }
  destruct (check_cases now ip st) as [-> | [-> | (_ & _ & ->)]]; cbn [snd];
    [done|done|].
  unfold pastOf. destruct (decide (ip = ip')) as [<-|Hne].
  - rewrite stored_recorded. apply Forall_app. split.
    + apply Forall_forall. intros t Ht. apply live_sub in Ht.
      specialize (H ip). unfold pastOf in H.
      rewrite Forall_forall in H. by apply H.
    + repeat constructor. lia.
  - rewrite stored_recorded_ne by done. apply H.
Qed.

Lemma allPast_run calls : ∀ from st,
  clockMonotone from calls → allPast from st →
  allPast (lastClock from calls) (run calls st).2.
Proof.
  induction calls as [|[now ip] rest IH]; intros from st Hm Hp; [done|].
  destruct Hm as [Hle Hm]. cbn [run].
  destruct (checkRateLimit now ip st) as [v st1] eqn:E1.
  destruct (run rest st1) as [vs st2] eqn:E2. cbn [snd].
  cbn [lastClock]. replace st2 with (run rest st1).2 by (by rewrite E2).
  apply IH; [done|]. replace st1 with (checkRateLimit now ip st).2
    by (by rewrite E1).
  apply allPast_check. by eapply allPast_mono.
Qed.

Lemma run_cons now ip rest st :
  run ((now, ip) :: rest) st
  = ((checkRateLimit now ip st).1
       :: (run rest (checkRateLimit now ip st).2).1,
     (run rest (checkRateLimit now ip st).2).2).
Proof.
  cbn [run]. destruct (checkRateLimit now ip st) as [v st1]. cbn [fst snd].
  destruct (run rest st1). reflexivity.
Qed.

Lemma StronglySorted_live now ts :
  StronglySorted Z.le ts → StronglySorted Z.le (live now ts).
Proof.
  unfold live. induction 1 as [|t ts Hs IH Hall]; [constructor|].
  rewrite filter_cons. case_decide; [|done].
  constructor; [done|]. apply Forall_forall. intros u Hu.
  apply list_elem_of_filter in Hu as [_ Hu].
  rewrite Forall_forall in Hall. by apply Hall.
Qed.

Lemma sorted_check now ip st :
  allPast now st → (∀ ip', StronglySorted Z.le (stored st ip')) →
  ∀ ip', StronglySorted Z.le (stored (checkRateLimit now ip st).2 ip').
Proof.
  intros Hpast Hsorted ip'.
  destruct (check_cases now ip st) as [-> | [-> | (_ & _ & ->)]]; cbn [snd];
    rewrite ?stored_dailyTick; [done..|].
  destruct (decide (ip = ip')) as [<-|Hne].
  - rewrite stored_recorded. apply StronglySorted_app_2.
    + intros t u Ht Hu. apply list_elem_of_singleton in Hu as ->.
      apply live_sub in Ht. specialize (Hpast ip). unfold pastOf in Hpast.
      rewrite Forall_forall in Hpast. by apply Hpast.
    + by apply StronglySorted_live.
    + repeat constructor.
  - by rewrite stored_recorded_ne.
Qed.

Lemma sorted_run calls : ∀ from st,
  clockMonotone from calls → allPast from st →
  (∀ ip, StronglySorted Z.le (stored st ip)) →
  ∀ ip, StronglySorted Z.le (stored (run calls st).2 ip).
Proof.
  induction calls as [|[now ip] rest IH]; intros from st Hm Hp Hs; [done|].
  destruct Hm as [Hle Hm]. rewrite run_cons. cbn [snd].
  apply (IH now); [done| |].
  - apply allPast_check. by eapply allPast_mono.
  - apply sorted_check; [|done]. by eapply allPast_mono.
Qed.

(** ** Admission control: the per-identifier window *)

(** C1, as the code has it.  A call for an identifier that already has
    [RATE_LIMIT_MAX] (3) timestamps inside the one-hour window, while the
    daily counter (after the reset step, so also when it was below the cap
    before the call) is below the cap, is denied.  The retry-after value
    [r] in the reason is computed from [timestamps[0]], the first surviving
    timestamp in stored order: it is the ceiling of
    (first + window - now) / 60000, the integer with
    [60000 * (r - 1) < first + window - now <= 60000 * r].  It is at least
    1, and at most 60 when the stored timestamps of the identifier are not
    later than [now].  The reason says "minute" when [r = 1] and "minutes"
    otherwise.  Second part: in every state reached from a cold start by
    calls whose clock readings never decrease, at a [now] not before the
    last of them, the first surviving timestamp is the oldest surviving
    one and such a call is denied with [1 <= r <= 60].  Third part: from a
    cold start, calls of one identifier at [t], [t + 1 min] and
    [t + 2 min] are allowed and the call at [t + 3 min] is denied with
    retry-after 57. *)
Theorem window_full_denied :
  (∀ now ip st,
      dailyCount (dailyTick now st) < DAILY_GLOBAL_CAP →
      Z.of_nat (length (live now (stored st ip))) >= RATE_LIMIT_MAX →
      ∃ t0 rest r,
        live now (stored st ip) = t0 :: rest
        ∧ (checkRateLimit now ip st).1 = windowDenied r
        ∧ 60000 * (r - 1) < t0 + RATE_LIMIT_WINDOW - now ≤ 60000 * r
        ∧ 1 ≤ r
        ∧ (pastOf now st ip → r ≤ 60)
        ∧ (r = 1 → windowReason r = windowReasonHead +:+ "1 minute.")
        ∧ (r ≠ 1 →
           windowReason r = windowReasonHead +:+ pretty r +:+ " minutes."))
  ∧ (∀ boot calls now ip,
      clockMonotone boot calls → lastClock boot calls ≤ now →
      let st := (run calls (initial boot)).2 in
      dailyCount (dailyTick now st) < DAILY_GLOBAL_CAP →
      Z.of_nat (length (live now (stored st ip))) >= RATE_LIMIT_MAX →
      ∃ t0 rest r,
        live now (stored st ip) = t0 :: rest
        ∧ Forall (λ t, t0 ≤ t) (t0 :: rest)
        ∧ (checkRateLimit now ip st).1 = windowDenied r
        ∧ 60000 * (r - 1) < t0 + RATE_LIMIT_WINDOW - now ≤ 60000 * r
        ∧ 1 ≤ r ≤ 60)
  ∧ (∀ boot t ip,
      (run [(t, ip); (t + minutes 1, ip); (t + minutes 2, ip);
            (t + minutes 3, ip)] (initial boot)).1
      = [allowVerdict; allowVerdict; allowVerdict; windowDenied 57]
      ∧ windowReason 57 = windowReasonHead +:+ "57 minutes.").
Proof.
  assert (Hgen : ∀ now ip st,
      dailyCount (dailyTick now st) < DAILY_GLOBAL_CAP →
      Z.of_nat (length (live now (stored st ip))) >= RATE_LIMIT_MAX →
      ∃ t0 rest r,
        live now (stored st ip) = t0 :: rest
        ∧ (checkRateLimit now ip st).1 = windowDenied r
        ∧ 60000 * (r - 1) < t0 + RATE_LIMIT_WINDOW - now ≤ 60000 * r
        ∧ 1 ≤ r
        ∧ (pastOf now st ip → r ≤ 60)
        ∧ (r = 1 → windowReason r = windowReasonHead +:+ "1 minute.")
        ∧ (r ≠ 1 →
           windowReason r = windowReasonHead +:+ pretty r +:+ " minutes.")).
  { intros now ip st Hc Hl.
    destruct (live now (stored st ip)) as [|t0 rest] eqn:Elive.
    { cbn in Hl. unfold RATE_LIMIT_MAX in Hl. lia. }
    exists t0, rest, (retryAfter now (t0 :: rest)).
    assert (Hin : t0 ∈ live now (stored st ip)) by (rewrite Elive; left).
    assert (Hwin : now - t0 < RATE_LIMIT_WINDOW).
    { pose proof (live_in_window now (stored st ip)) as Hw.
      rewrite Forall_forall in Hw. by apply Hw. }
    pose proof (ceil_div_spec (t0 + RATE_LIMIT_WINDOW - now) 60000
                  ltac:(lia)) as Hceil.
    assert (Hr : retryAfter now (t0 :: rest)
                 = ceil_div (t0 + RATE_LIMIT_WINDOW - now) 60000)
      by reflexivity.
    rewrite Hr. split_and!; try done.
    - rewrite check_window by (rewrite ?Elive; done).
      by rewrite Elive, Hr.
    - lia.
    - lia.
    - unfold RATE_LIMIT_WINDOW in *. lia.
    - intros Hpast.
      assert (Hold : t0 ≤ now).
      { unfold pastOf in Hpast. rewrite Forall_forall in Hpast.
        apply Hpast. by eapply live_sub. }
      unfold RATE_LIMIT_WINDOW in *. lia.
    - intros ->. apply windowReason_one.
    - apply windowReason_other. }
  split_and!.
  - exact Hgen.
  - intros boot calls now ip Hmono Hlast st Hc Hl.
    destruct (Hgen now ip st Hc Hl)
      as (t0 & rest & r & Elive & Hv & Hceil & Hlo & Hhi & _).
    exists t0, rest, r. split_and!; [done| |done|lia|lia|done|].
    + assert (Hs : StronglySorted Z.le (stored st ip)).
      { apply (sorted_run calls boot); [done|apply allPast_initial|].
        intros ip'. unfold stored, initial; cbn. rewrite lookup_empty.
        constructor. }
      apply (StronglySorted_live now) in Hs. rewrite Elive in Hs.
      apply StronglySorted_cons in Hs as [Hall _].
      constructor; [lia|exact Hall].
    + apply Hhi. eapply allPast_mono; [exact Hlast|].
      apply allPast_run; [done|apply allPast_initial].
  - intros boot t ip. split; [|reflexivity].
    assert (H0 : stored (initial boot) ip = []).
    { unfold stored, initial; cbn. by rewrite lookup_empty. }
    unfold minutes, RATE_LIMIT_MAX in *.
    destruct (check_allowed_known t ip (initial boot) [] 0)
      as (E1 & S1 & C1); [done|done|cbn; lia|done|].
    set (st1 := recorded t ip (initial boot)) in *.
    cbn [live filter list_filter app] in S1.
    destruct (check_allowed_known (t + 1 * 60000) ip st1 [t] 1)
      as (E2 & S2 & C2); [done| |done|done|].
    { rewrite live_all; [done|]. repeat constructor.
      unfold RATE_LIMIT_WINDOW; lia. }
    set (st2 := recorded (t + 1 * 60000) ip st1) in *.
    rewrite live_all in S2
      by (repeat constructor; unfold RATE_LIMIT_WINDOW; lia).
    destruct (check_allowed_known (t + 2 * 60000) ip st2
                [t; t + 1 * 60000] 2)
      as (E3 & S3 & C3); [done| |done|done|].
    { rewrite live_all; [done|]. repeat constructor;
      unfold RATE_LIMIT_WINDOW; lia. }
    set (st3 := recorded (t + 2 * 60000) ip st2) in *.
    rewrite live_all in S3
      by (repeat constructor; unfold RATE_LIMIT_WINDOW; lia).
    assert (E4 : checkRateLimit (t + 3 * 60000) ip st3
                 = (windowDenied 57, dailyTick (t + 3 * 60000) st3)).
    { pose proof (dailyTick_count (t + 3 * 60000) st3).
      assert (Hlive : live (t + 3 * 60000) (stored st3 ip)
                      = [t; t + 1 * 60000; t + 2 * 60000]).
      { rewrite S3. apply live_all.
        repeat constructor; unfold RATE_LIMIT_WINDOW; lia. }
      rewrite check_window; rewrite ?Hlive;
        [|unfold DAILY_GLOBAL_CAP; lia|done].
      do 2 f_equal.
      change (retryAfter _ _)
        with (ceil_div (t + RATE_LIMIT_WINDOW - (t + 3 * 60000)) 60000).
      pose proof (ceil_div_spec (t + RATE_LIMIT_WINDOW - (t + 3 * 60000))
                    60000 ltac:(lia)).
      unfold RATE_LIMIT_WINDOW in *. lia. }
    cbn [run]. rewrite E1. rewrite E2. rewrite E3. rewrite E4. done.
Qed.

(** An instance of the first part of [window_full_denied]: three calls in
    the first three minutes, the fourth 59 minutes and one millisecond after
    the first, which is told to retry in one minute. *)
Lemma window_full_denied_witness :
  let st := {| ipStore := {[ "1.2.3.4" := [0; 60000; 120000] ]};
               dailyCount := 3; dailyReset := DAY_MS |} in
  ∃ t0 rest r,
    live 3540001 (stored st "1.2.3.4") = t0 :: rest
    ∧ (checkRateLimit 3540001 "1.2.3.4" st).1 = windowDenied r
    ∧ 60000 * (r - 1) < t0 + RATE_LIMIT_WINDOW - 3540001 ≤ 60000 * r
    ∧ 1 ≤ r
    ∧ (pastOf 3540001 st "1.2.3.4" → r ≤ 60)
    ∧ (r = 1 → windowReason r = windowReasonHead +:+ "1 minute.")
    ∧ (r ≠ 1 →
       windowReason r = windowReasonHead +:+ pretty r +:+ " minutes.").
Proof.
  intros st.
  apply (proj1 window_full_denied 3540001 "1.2.3.4" st).
  - vm_compute. reflexivity.
  - vm_compute. discriminate.
Defined.

(** C1, as the claim words it, fails when the clock steps back between
    calls.  First instance: three calls of one identifier at clock reading
    1000 are allowed, and a fourth at 999 finds all three inside the window
    and the daily counter at 3; it is denied with retry-after
    ceil (3600001 / 60000) = 61, above the 60 minutes of the window.
    Second instance: calls at 2 minutes, 0 and 1 minute are allowed and
    stored in that order; the call at 3 minutes is denied with retry-after
    59, computed from the first stored timestamp (2 minutes), while the
    oldest surviving timestamp (0) would give 57. *)
Lemma retry_after_clock_step_back :
  (let st := (run [(1000, "1.2.3.4"); (1000, "1.2.3.4"); (1000, "1.2.3.4")]
                (initial 0)).2 in
   live 999 (stored st "1.2.3.4") = [1000; 1000; 1000]
   ∧ dailyCount st = 3
   ∧ (checkRateLimit 999 "1.2.3.4" st).1 = windowDenied 61
   ∧ ¬ (1 ≤ 61 ≤ 60))
  ∧ (let st := (run [(120000, "1.2.3.4"); (0, "1.2.3.4");
                     (60000, "1.2.3.4")] (initial 0)).2 in
     live 180000 (stored st "1.2.3.4") = [120000; 0; 60000]
     ∧ dailyCount st = 3
     ∧ (checkRateLimit 180000 "1.2.3.4" st).1 = windowDenied 59
     ∧ ceil_div (0 + RATE_LIMIT_WINDOW - 180000) 60000 = 57
     ∧ 59 ≠ 57).
Proof.
  split; cbv zeta; split_and!;
    try (vm_compute; reflexivity); try lia.
Qed.


(** C2. A call that finds the daily counter below the cap and fewer than
    [RATE_LIMIT_MAX] (3) timestamps of its identifier inside the window is
    allowed, and it appends the clock reading to the pruned sequence and
    counts the request.  So is every call of a sequence in which each call
    finds this.  Once the window has passed since every recorded request of
    an identifier, three more calls of that identifier are allowed (the
    daily counter leaving room for three). *)
Theorem under_quota_allowed :
  (∀ now ip st,
      dailyCount (dailyTick now st) < DAILY_GLOBAL_CAP →
      Z.of_nat (length (live now (stored st ip))) < RATE_LIMIT_MAX →
      (checkRateLimit now ip st).1 = allowVerdict
      ∧ stored (checkRateLimit now ip st).2 ip
        = live now (stored st ip) ++ [now]
      ∧ dailyCount (checkRateLimit now ip st).2
        = dailyCount (dailyTick now st) + 1)
  ∧ (∀ calls st,
      underQuota calls st →
      (run calls st).1 = replicate (length calls) allowVerdict)
  ∧ (∀ n1 n2 n3 ip st,
      Forall (λ t, n1 - t >= RATE_LIMIT_WINDOW) (stored st ip) →
      dailyCount st + 3 ≤ DAILY_GLOBAL_CAP →
      (run [(n1, ip); (n2, ip); (n3, ip)] st).1
      = [allowVerdict; allowVerdict; allowVerdict]).
Proof.
  split_and!.
  - intros now ip st Hc Hl. rewrite check_allowed by done. cbn [fst snd].
    split_and!; [done|apply stored_recorded|done].
  - induction calls as [|[now ip] rest IH]; intros st Hq; [done|].
    destruct Hq as (Hc & Hl & Hrest).
    rewrite run_cons. cbn [fst length replicate].
    rewrite (IH _ Hrest). by rewrite check_allowed.
  - intros n1 n2 n3 ip st Hexp Hroom.
    unfold DAILY_GLOBAL_CAP in Hroom.
    destruct (check_allowed_known n1 ip st (stored st ip)
                (Z.max 0 (dailyCount st)))
      as (E1 & S1 & C1); [done| |lia|unfold DAILY_GLOBAL_CAP; lia|].
    { by rewrite live_none. }
    rewrite live_none in S1 by done. cbn [app] in S1.
    set (st1 := recorded n1 ip st) in *.
    pose proof (live_length n2 [n1]) as L2. cbn [length] in L2.
    destruct (check_allowed_known n2 ip st1 [n1]
                (Z.max 0 (dailyCount st) + 1))
      as (E2 & S2 & C2);
      [done|unfold RATE_LIMIT_MAX; lia|done|unfold DAILY_GLOBAL_CAP; lia|].
    set (st2 := recorded n2 ip st1) in *.
    pose proof (live_length n3 (live n2 [n1] ++ [n2])) as L3.
    rewrite length_app in L3. cbn [length] in L3.
    destruct (check_allowed_known n3 ip st2 (live n2 [n1] ++ [n2])
                (Z.max 0 (dailyCount st) + 1 + 1))
      as (E3 & S3 & C3);
      [done|unfold RATE_LIMIT_MAX; lia|done|unfold DAILY_GLOBAL_CAP; lia|].
    cbn [run]. rewrite E1, E2, E3. done.
Qed.

(** An instance of the first part of [under_quota_allowed]: the third call
    of an identifier within the hour. *)
Lemma under_quota_allowed_witness :
  let st := {| ipStore := {[ "1.2.3.4" := [0; 60000] ]};
               dailyCount := 2; dailyReset := DAY_MS |} in
  (checkRateLimit 120000 "1.2.3.4" st).1 = allowVerdict
  ∧ stored (checkRateLimit 120000 "1.2.3.4" st).2 "1.2.3.4"
    = live 120000 (stored st "1.2.3.4") ++ [120000]
  ∧ dailyCount (checkRateLimit 120000 "1.2.3.4" st).2
    = dailyCount (dailyTick 120000 st) + 1.
Proof.
  intros st.
  apply (proj1 under_quota_allowed 120000 "1.2.3.4" st).
  - vm_compute. reflexivity.
  - vm_compute. reflexivity.
Defined.

(** C3, as the code has it.  A denied call records nothing: the store is
    left as it was, and the state is the one the daily-reset step produced,
    so the daily counter is not incremented.  The counter itself keeps its
    value when [now] has not passed [dailyReset]; when it has, the reset
    step has already set it to zero (and moved [dailyReset]) before the
    per-identifier check denies.  A global-cap denial leaves the whole state
    as it was, and its verdict and state are the same for every identifier
    and every content of the store. *)
Theorem denied_records_nothing now ip st :
  allowed (checkRateLimit now ip st).1 = false →
  (checkRateLimit now ip st).2 = dailyTick now st
  ∧ ipStore (checkRateLimit now ip st).2 = ipStore st
  ∧ dailyCount (checkRateLimit now ip st).2
    = (if bool_decide (now > dailyReset st) then 0 else dailyCount st)
  ∧ (dailyCount (dailyTick now st) >= DAILY_GLOBAL_CAP →
     (checkRateLimit now ip st).2 = st
     ∧ ∀ ip' store',
         let st' := {| ipStore := store'; dailyCount := dailyCount st;
                       dailyReset := dailyReset st |} in
         checkRateLimit now ip' st' = (dailyDenied, st')).
Proof.
  intros Hden.
  assert (Hst : (checkRateLimit now ip st).2 = dailyTick now st).
  { destruct (check_cases now ip st) as [E | [E | (_ & _ & E)]];
      rewrite E in Hden |- *; done. }
  rewrite Hst. split_and!.
  - done.
  - apply ipStore_dailyTick.
  - unfold dailyTick. by case_bool_decide.
  - intros Hcap.
    assert (Hearly : now ≤ dailyReset st).
    { destruct (decide (now ≤ dailyReset st)) as [|Hlate]; [done|].
      rewrite dailyTick_late in Hcap by lia. cbn in Hcap.
      unfold DAILY_GLOBAL_CAP in Hcap. lia. }
    rewrite dailyTick_early in Hcap |- * by done.
    split; [done|]. intros ip' store' st'.
    rewrite check_daily; rewrite dailyTick_early; done.
Qed.

(** An instance of [denied_records_nothing]: the daily cap is reached. *)
Lemma denied_records_nothing_witness :
  let st := {| ipStore := ∅; dailyCount := 100; dailyReset := DAY_MS |} in
  (checkRateLimit 5 "1.2.3.4" st).2 = dailyTick 5 st
  ∧ ipStore (checkRateLimit 5 "1.2.3.4" st).2 = ipStore st
  ∧ dailyCount (checkRateLimit 5 "1.2.3.4" st).2
    = (if bool_decide (5 > dailyReset st) then 0 else dailyCount st)
  ∧ (dailyCount (dailyTick 5 st) >= DAILY_GLOBAL_CAP →
     (checkRateLimit 5 "1.2.3.4" st).2 = st
     ∧ ∀ ip' store',
         let st' := {| ipStore := store'; dailyCount := dailyCount st;
                       dailyReset := dailyReset st |} in
         checkRateLimit 5 ip' st' = (dailyDenied, st')).
Proof.
  intros st. apply (denied_records_nothing 5 "1.2.3.4" st). reflexivity.
Defined.

(** C3, as the claim words it, fails: a denied call can change the daily
    counter.  Three calls of one identifier in the last two minutes before
    [dailyReset] are allowed and bring the counter to 3; the fourth call, one
    minute after [dailyReset], is denied by the window of the identifier,
    and the counter it leaves is 0. *)
Lemma denied_call_changes_counter :
  let st := (run [(DAY_MS - 120000, "1.2.3.4"); (DAY_MS - 60000, "1.2.3.4");
                  (DAY_MS, "1.2.3.4")] (initial 0)).2 in
  let call := checkRateLimit (DAY_MS + 60000) "1.2.3.4" st in
  allowed call.1 = false
  ∧ dailyCount st = 3
  ∧ dailyCount call.2 = 0
  ∧ dailyCount call.2 ≠ dailyCount st.
Proof. vm_compute. split_and!; [reflexivity..|discriminate]. Qed.

(** ** Admission control: the global daily cap *)

(** C4. With the daily counter at the cap, a call at a time that has not
    passed [dailyReset] is denied with the fixed reason, for every
    identifier and whatever its window holds, and the state stays as it is;
    hence so is every call of a sequence of such calls.  A call at a time
    past [dailyReset] sets the counter to zero and [dailyReset] to
    [now + 24 h] before anything else; it is then allowed exactly when the
    window of its identifier has room (the counter ending at 1), and denied
    by that window otherwise (the counter ending at 0). *)
Theorem daily_cap_until_reset :
  (∀ now ip st,
      dailyCount st >= DAILY_GLOBAL_CAP → now ≤ dailyReset st →
      checkRateLimit now ip st = (dailyDenied, st))
  ∧ (∀ calls st,
      dailyCount st >= DAILY_GLOBAL_CAP →
      Forall (λ call, call.1 ≤ dailyReset st) calls →
      run calls st = (replicate (length calls) dailyDenied, st))
  ∧ (∀ now ip st,
      now > dailyReset st →
      let fresh := {| ipStore := ipStore st; dailyCount := 0;
                      dailyReset := now + DAY_MS |} in
      dailyTick now st = fresh
      ∧ (Z.of_nat (length (live now (stored st ip))) < RATE_LIMIT_MAX →
         checkRateLimit now ip st
         = (allowVerdict,
            {| ipStore := <[ip := live now (stored st ip) ++ [now]]>
                            (ipStore st);
               dailyCount := 1; dailyReset := now + DAY_MS |}))
      ∧ (Z.of_nat (length (live now (stored st ip))) >= RATE_LIMIT_MAX →
         checkRateLimit now ip st
         = (windowDenied (retryAfter now (live now (stored st ip))),
            fresh))).
Proof.
  assert (Hone : ∀ now ip st,
             dailyCount st >= DAILY_GLOBAL_CAP → now ≤ dailyReset st →
             checkRateLimit now ip st = (dailyDenied, st)).
  { intros now ip st Hcap Hearly.
    rewrite check_daily; rewrite dailyTick_early; done. }
  split_and!.
  - exact Hone.
  - induction calls as [|[now ip] rest IH]; intros st Hcap Hall; [done|].
    apply Forall_cons in Hall as [Hnow Hrest]. cbn [fst] in Hnow.
    rewrite run_cons, Hone by done. cbn [fst snd].
    rewrite IH by done. done.
  - intros now ip st Hlate fresh.
    assert (Htick : dailyTick now st = fresh) by by apply dailyTick_late.
    split_and!; [done| |].
    + intros Hroom. rewrite check_allowed.
      * unfold recorded. rewrite stored_dailyTick, Htick. done.
      * rewrite Htick. done.
      * done.
    + intros Hfull. rewrite check_window; [by rewrite Htick| |done].
      rewrite Htick. done.
Qed.

(** An instance of the first part of [daily_cap_until_reset]: the counter
    is at the cap and an identifier never seen before asks. *)
Lemma daily_cap_until_reset_witness :
  checkRateLimit 5 "9.9.9.9"
    {| ipStore := ∅; dailyCount := 100; dailyReset := DAY_MS |}
  = (dailyDenied,
     {| ipStore := ∅; dailyCount := 100; dailyReset := DAY_MS |}).
Proof.
  apply (proj1 daily_cap_until_reset 5 "9.9.9.9"
           {| ipStore := ∅; dailyCount := 100; dailyReset := DAY_MS |}).
  - cbn. unfold DAILY_GLOBAL_CAP. lia.
  - cbn. unfold DAY_MS. lia.
Defined.

(** ** Admission control: what every call preserves *)

Lemma bounded_initial boot : bounded (initial boot).
Proof.
  split; [|cbn; unfold DAILY_GLOBAL_CAP; lia].
  intros ip ts. cbn. by rewrite lookup_empty.
Qed.

Lemma bounded_dailyTick now st : bounded st → bounded (dailyTick now st).
Proof.
  intros [Hs Hc]. unfold dailyTick. case_bool_decide; [|done].
  split; [exact Hs|]. cbn. unfold DAILY_GLOBAL_CAP. lia.
Qed.

Lemma bounded_check now ip st :
  bounded st → bounded (checkRateLimit now ip st).2.
Proof.
  intros Hb. pose proof (bounded_dailyTick now st Hb) as [Hs Hc].
  destruct (check_cases now ip st) as [-> | [-> | (Hcount & Hlen & ->)]];
    cbn [snd]; [done|done|].
  split.
  - intros ip' ts. unfold recorded. cbn [ipStore].
    destruct (decide (ip = ip')) as [<-|Hne].
    + rewrite lookup_insert_eq. intros [= <-].
      rewrite length_app, stored_dailyTick. cbn [length]. lia.
    + rewrite lookup_insert_ne by done. apply Hs.
  - unfold recorded. cbn [dailyCount]. lia.
Qed.

Lemma bounded_run calls : ∀ st, bounded st → bounded (run calls st).2.
Proof.
  induction calls as [|[now ip] rest IH]; intros st Hb; [done|].
  rewrite run_cons. cbn [snd]. apply IH. by apply bounded_check.
Qed.

(** C10. With calls made one at a time, the limiter keeps every stored
    sequence at length at most [RATE_LIMIT_MAX] (3) and the daily counter at
    most [DAILY_GLOBAL_CAP] (100): the state after a cold start satisfies
    both, every call preserves both, so every state reached by a sequence
    of calls satisfies both.  And whenever a call at [now] leaves for some
    identifier a sequence that was not stored for it before, that
    identifier is the caller and every timestamp [t] of the sequence has
    [now - t < RATE_LIMIT_WINDOW]. *)
Theorem limiter_invariants :
  (∀ boot, bounded (initial boot))
  ∧ (∀ now ip st, bounded st → bounded (checkRateLimit now ip st).2)
  ∧ (∀ calls boot, bounded (run calls (initial boot)).2)
  ∧ (∀ now ip st ip' ts,
      ipStore (checkRateLimit now ip st).2 !! ip' = Some ts →
      ipStore st !! ip' ≠ Some ts →
      ip' = ip ∧ Forall (λ t, now - t < RATE_LIMIT_WINDOW) ts).
Proof.
  split_and!.
  - exact bounded_initial.
  - exact bounded_check.
  - intros calls boot. apply bounded_run, bounded_initial.
  - intros now ip st ip' ts Hnew Hold.
    destruct (check_cases now ip st) as [E | [E | (_ & _ & E)]];
      rewrite E in Hnew; cbn [snd] in Hnew.
    + rewrite ipStore_dailyTick in Hnew. done.
    + rewrite ipStore_dailyTick in Hnew. done.
    + unfold recorded in Hnew. cbn [ipStore] in Hnew.
      destruct (decide (ip = ip')) as [<-|Hne].
      * rewrite lookup_insert_eq in Hnew. injection Hnew as <-.
        split; [done|]. apply Forall_app. split.
        -- apply live_in_window.
        -- repeat constructor. unfold RATE_LIMIT_WINDOW. lia.
      * rewrite lookup_insert_ne, ipStore_dailyTick in Hnew by done. done.
Qed.

(** An instance of the second part of [limiter_invariants]: a full window
    and a counter one below the cap. *)
Lemma limiter_invariants_witness :
  bounded (checkRateLimit 180000 "5.6.7.8"
             {| ipStore := {[ "1.2.3.4" := [0; 60000; 120000] ]};
                dailyCount := 99; dailyReset := DAY_MS |}).2.
Proof.
  apply (proj1 (proj2 limiter_invariants) 180000 "5.6.7.8").
  split; cbn [ipStore dailyCount].
  - intros ip ts Hts. apply lookup_singleton_Some in Hts as [_ <-].
    cbn. unfold RATE_LIMIT_MAX. lia.
  - unfold DAILY_GLOBAL_CAP. lia.
Defined.

(** ** The source identifier *)

Lemma firstField_spec v :
  ∃ rest, v = firstField v +:+ rest
          ∧ hasComma (firstField v) = false
          ∧ (rest = "" ∨ ∃ r, rest = String ","%char r).
Proof.
  induction v as [|c v (rest & Hv & Hno & Hrest)].
  - exists "". by split_and!; [| |left].
  - cbn [firstField]. case_bool_decide as Hc.
    + subst c. exists (String ","%char v). split_and!; [done..|]. right; eauto.
    + exists rest. cbn [hasComma String.append]. split_and!; [|by rewrite bool_decide_eq_false_2|done].
      change (String c v = String c (firstField v +:+ rest)).
      by rewrite <- Hv.
Qed.

Lemma trimStart_spec s :
  ∃ pre, s = pre +:+ trimStart s ∧ allSpace pre = true
         ∧ startsWithSpace (trimStart s) = false.
Proof.
  induction s as [|c s (pre & Hs & Hpre & Hstart)].
  - by exists "".
  - cbn [trimStart]. destruct (isSpace c) eqn:Hc.
    + exists (String c pre). cbn [String.append allSpace]. rewrite Hc, Hpre.
      split_and!; [|done..].
      change (String c s = String c (pre +:+ trimStart s)). by rewrite <- Hs.
    + exists "". by split_and!.
Qed.

Lemma trimEnd_spec s :
  ∃ post, s = trimEnd s +:+ post ∧ allSpace post = true
          ∧ endsWithSpace (trimEnd s) = false.
Proof.
  induction s as [|c s (post & Hs & Hpost & Hend)].
  - by exists "".
  - cbn [trimEnd]. destruct (trimEnd s) as [|a kept] eqn:Hkept.
    + change (s = post) in Hs. subst post. destruct (isSpace c) eqn:Hc.
      * exists (String c s). cbn [allSpace String.append]. by rewrite Hc, Hpost.
      * exists s. by split_and!.
    + exists post. split_and!; [|done..].
      change (String c s = String c (String a kept +:+ post)). by rewrite <- Hs.
Qed.

Lemma trimEnd_start s :
  startsWithSpace s = false → startsWithSpace (trimEnd s) = false.
Proof.
  destruct s as [|c s]; [done|]. cbn [startsWithSpace trimEnd]. intros Hc.
  destruct (trimEnd s); [by rewrite Hc|done].
Qed.

(** [trim] removes white space, and only white space, from both ends. *)
Lemma trim_spec s :
  ∃ pre post, s = pre +:+ trim s +:+ post
              ∧ allSpace pre = true ∧ allSpace post = true
              ∧ startsWithSpace (trim s) = false
              ∧ endsWithSpace (trim s) = false.
Proof.
  destruct (trimStart_spec s) as (pre & Hs & Hpre & Hstart).
  destruct (trimEnd_spec (trimStart s)) as (post & Ht & Hpost & Hend).
  exists pre, post. unfold trim. split_and!; [|done|done| |done].
  - by rewrite <- Ht.
  - by apply trimEnd_start.
Qed.

Lemma orElse_nonempty s b : s ≠ "" → orElse (Some s) b = Some s.
Proof. intros Hs. unfold orElse. by rewrite bool_decide_eq_true_2. Qed.

Lemma orElse_falsy a b : (∀ s, a = Some s → s = "") → orElse a b = b.
Proof.
  intros Ha. destruct a as [s|]; [|done].
  rewrite (Ha s eq_refl). done.
Qed.

(** C7. The identifier of a request is the first comma-separated value of
    the forwarded-for header, trimmed, when that is a non-empty string;
    otherwise the real-IP header when present and non-empty; otherwise the
    peer address of the socket when there is one (a socket, an address, not
    empty); otherwise the string "unknown". *)
Theorem getIP_precedence req :
  (∀ s, forwardedFor req s → getIP req = s)
  ∧ ((¬ ∃ s, forwardedFor req s) →
     ∀ s, realIP req s → getIP req = s)
  ∧ ((¬ ∃ s, forwardedFor req s) → (¬ ∃ s, realIP req s) →
     ∀ s, peerAddress req s → getIP req = s)
  ∧ ((¬ ∃ s, forwardedFor req s) → (¬ ∃ s, realIP req s) →
     (¬ ∃ s, peerAddress req s) → getIP req = "unknown").
Proof.
  assert (Hfwd : (¬ ∃ s, forwardedFor req s) →
            ∀ b, orElse ((λ v, trim (firstField v))
                           <$> headers req !! "x-forwarded-for") b = b).
  { intros Hno b. apply orElse_falsy. intros s Hs.
    destruct (headers req !! "x-forwarded-for") as [v|] eqn:Hv; [|done].
    injection Hs as <-.
    destruct (decide (trim (firstField v) = "")) as [|Hne]; [done|].
    exfalso. apply Hno. exists (trim (firstField v)), v. done. }
  assert (Hreal : (¬ ∃ s, realIP req s) →
            ∀ b, orElse (headers req !! "x-real-ip") b = b).
  { intros Hno b. apply orElse_falsy. intros s Hs.
    destruct (decide (s = "")) as [|Hne]; [done|].
    exfalso. apply Hno. by exists s. }
  assert (Hpeer : (¬ ∃ s, peerAddress req s) →
            ∀ b, orElse (socket req ≫= remoteAddress) b = b).
  { intros Hno b. apply orElse_falsy. intros s Hs.
    destruct (socket req) as [sock|] eqn:Hsock; [|done]. cbn in Hs.
    destruct (decide (s = "")) as [|Hne]; [done|].
    exfalso. apply Hno. exists s, sock. done. }
  unfold getIP. split_and!.
  - intros s (v & Hv & -> & Hne). rewrite Hv. cbn [fmap option_fmap option_map].
    by rewrite !orElse_nonempty.
  - intros Hno s [Hs Hne]. rewrite Hfwd, Hs by done.
    by rewrite !orElse_nonempty.
  - intros Hno1 Hno2 s (sock & Hsock & Haddr & Hne).
    rewrite Hfwd, Hreal, Hsock by done. cbn. rewrite Haddr.
    by rewrite !orElse_nonempty.
  - intros Hno1 Hno2 Hno3. by rewrite Hfwd, Hreal, Hpeer.
Qed.

(** An instance of the first part of [getIP_precedence]: a forwarded-for
    header with two hops wins over the real-IP header. *)
Lemma getIP_precedence_witness :
  getIP {| method := "POST";
           headers := {[ "x-forwarded-for" := " 1.2.3.4 , 10.0.0.1";
                         "x-real-ip" := "10.0.0.2" ]};
           socket := Some {| remoteAddress := Some "10.0.0.3" |};
           body := JNull |}
  = "1.2.3.4".
Proof.
  apply (proj1 (getIP_precedence _)).
  exists " 1.2.3.4 , 10.0.0.1". split_and!; [reflexivity|reflexivity|discriminate].
Defined.

(** ** The generation handler *)

Lemma promptInvalid_false p :
  promptInvalid p = false
  ↔ ∃ s, p = JString s ∧ 20 ≤ Z.of_nat (String.length s).
Proof.
  unfold promptInvalid. split.
  - destruct p as [| | | |s| |]; cbn; try done.
    + by destruct b.
    + by rewrite orb_true_r.
    + case_bool_decide as Hs; cbn; [|done].
      case_bool_decide; [done|]. intros _. exists s. split; [done|lia].
  - intros (s & -> & Hlen). cbn.
    rewrite bool_decide_eq_true_2 by (intros ->; cbn in Hlen; lia). cbn.
    rewrite bool_decide_eq_false_2 by lia. done.
Qed.

(** A POST that passes the admission check: the state is the one the check
    left, and the answer depends on the prompt, the API key and the
    upstream call only. *)
Lemma handler_passed w req st :
  method req = "POST" →
  allowed (checkRateLimit (clock w) (getIP req) st).1 = true →
  handler w req st
  = (if promptInvalid (promptOf req) then jsonError 400 "Invalid request"
     else if bool_decide (strLength (promptOf req) > 12000) then
       jsonError 400 "Prompt too large"
     else
       match orElse (ANTHROPIC_API_KEY w) None with
       | None => jsonError 500 "Server misconfiguration — API key not set"
       | Some apiKey =>
           match anthropic w apiKey (strOf (promptOf req)) with
           | UpstreamThrows => Thrown
           | UpstreamNotOk err =>
               Responded
                 {| status := 502;
                    payload := Json (errorObject
                      (or (optField "message" (optField "error" err))
                          (JString "Upstream API error"))) |}
           | UpstreamOk chunks =>
               Responded {| status := 200; payload := EventStream chunks |}
           end
       end,
     recorded (clock w) (getIP req) st).
Proof.
  intros Hm Hallowed. unfold handler.
  rewrite bool_decide_eq_false_2 by (rewrite Hm; discriminate).
  rewrite bool_decide_eq_false_2 by (rewrite Hm; auto).
  destruct (check_cases (clock w) (getIP req) st)
    as [E | [E | (_ & _ & E)]]; rewrite E in Hallowed |- *; try done.
  cbn [allowed allowVerdict negb]. fold (promptOf req).
  destruct (promptInvalid (promptOf req)); [done|].
  case_bool_decide; [done|].
  destruct (orElse (ANTHROPIC_API_KEY w) None); [|done].
  by destruct (anthropic w s (strOf (promptOf req))).
Qed.

Lemma handler_passed_status w req st :
  method req = "POST" →
  allowed (checkRateLimit (clock w) (getIP req) st).1 = true →
  statusOf (handler w req st).1 = Some 400
  ↔ promptInvalid (promptOf req) = true
    ∨ strLength (promptOf req) > 12000.
Proof.
  intros Hm Hallowed. rewrite handler_passed by done. cbn [fst].
  destruct (promptInvalid (promptOf req)); [by split; auto|].
  case_bool_decide; [by split; auto|].
  split; [|intros [?|?]; done].
  destruct (orElse (ANTHROPIC_API_KEY w) None); [|done].
  by destruct (anthropic w s (strOf (promptOf req))).
Qed.

(** The prompt fails validation, in the words of the specification. *)
Lemma prompt_rejected_iff p :
  promptInvalid p = true ∨ strLength p > 12000
  ↔ p = JUndefined ∨ isString p = false
    ∨ ∃ s, p = JString s
           ∧ (Z.of_nat (String.length s) < 20
               ∨ 12000 < Z.of_nat (String.length s)).
Proof.
  destruct (promptInvalid p) eqn:Hinv.
  - split; [intros _|by auto].
    destruct (isString p) eqn:Hstr; [|by auto].
    destruct p as [| | | |s| |]; try done.
    right; right. exists s. split; [done|].
    destruct (decide (Z.of_nat (String.length s) < 20)); [by left|exfalso].
    assert (promptInvalid (JString s) = false) as Hok; [|congruence].
    apply promptInvalid_false. exists s. split; [done|lia].
  - apply promptInvalid_false in Hinv as (s & -> & Hlen). cbn. split.
    + intros [?|?]; [done|]. right; right. exists s. split; [done|lia].
    + intros [?|[?|(s' & [= <-] & Hs)]]; [done..|]. right. lia.
Qed.

(** C6. For a POST that is not rate-limited, the answer has status 400
    exactly when the prompt is missing, is not a string, or is a string of
    fewer than 20 or more than 12000 code units.  In particular a prompt of
    length 19 gives 400, one of length 20 does not, one of length 12001
    gives 400. *)
Theorem prompt_validation w req st :
  method req = "POST" →
  allowed (checkRateLimit (clock w) (getIP req) st).1 = true →
  (statusOf (handler w req st).1 = Some 400
   ↔ promptOf req = JUndefined ∨ isString (promptOf req) = false
     ∨ ∃ s, promptOf req = JString s
            ∧ (Z.of_nat (String.length s) < 20
               ∨ 12000 < Z.of_nat (String.length s)))
  ∧ (∀ s, promptOf req = JString s → Z.of_nat (String.length s) = 19 →
          statusOf (handler w req st).1 = Some 400)
  ∧ (∀ s, promptOf req = JString s → Z.of_nat (String.length s) = 20 →
          statusOf (handler w req st).1 ≠ Some 400)
  ∧ (∀ s, promptOf req = JString s → Z.of_nat (String.length s) = 12001 →
          statusOf (handler w req st).1 = Some 400).
Proof.
  intros Hm Hallowed.
  assert (Hiff : statusOf (handler w req st).1 = Some 400
     ↔ promptOf req = JUndefined ∨ isString (promptOf req) = false
       ∨ ∃ s, promptOf req = JString s
              ∧ (Z.of_nat (String.length s) < 20
               ∨ 12000 < Z.of_nat (String.length s))).
  { rewrite handler_passed_status by done. apply prompt_rejected_iff. }
  split_and!; [done| | |].
  - intros s Hs Hlen. apply Hiff. right; right. exists s. split; [done|lia].
  - intros s Hs Hlen. rewrite Hiff, Hs.
    intros [?|[?|(s' & [= <-] & Hbad)]]; [done..|lia].
  - intros s Hs Hlen. apply Hiff. right; right. exists s. split; [done|lia].
Qed.

(** C5. When a POST passes the admission check and its prompt then fails
    validation, the answer is 400 and the request stays recorded: the state
    the handler leaves is the one the check left, in which the clock reading
    is appended to the pruned sequence of the identifier and the daily
    counter is one more than after the reset step. *)
Theorem invalid_prompt_is_recorded w req st :
  method req = "POST" →
  allowed (checkRateLimit (clock w) (getIP req) st).1 = true →
  (promptOf req = JUndefined ∨ isString (promptOf req) = false
   ∨ ∃ s, promptOf req = JString s
          ∧ (Z.of_nat (String.length s) < 20
               ∨ 12000 < Z.of_nat (String.length s))) →
  statusOf (handler w req st).1 = Some 400
  ∧ (handler w req st).2 = (checkRateLimit (clock w) (getIP req) st).2
  ∧ stored (handler w req st).2 (getIP req)
    = live (clock w) (stored st (getIP req)) ++ [clock w]
  ∧ dailyCount (handler w req st).2
    = dailyCount (dailyTick (clock w) st) + 1.
Proof.
  intros Hm Hallowed Hbad. split.
  { rewrite handler_passed_status by done. by apply prompt_rejected_iff. }
  rewrite handler_passed by done. cbn [snd].
  destruct (check_cases (clock w) (getIP req) st)
    as [E | [E | (_ & _ & E)]]; rewrite E in Hallowed |- *; try done.
  cbn [snd]. split_and!; [done|apply stored_recorded|done].
Qed.

(** An instance of [prompt_validation]: a first request with a prompt of 9
    code units is answered 400. *)
Lemma prompt_validation_witness :
  statusOf (handler sampleWorld shortPromptRequest (initial 0)).1 = Some 400.
Proof.
  apply (proj1 (prompt_validation sampleWorld shortPromptRequest (initial 0)
                  eq_refl eq_refl)).
  right; right. exists "too short". split; [reflexivity|left; reflexivity].
Defined.

(** An instance of [invalid_prompt_is_recorded]: the same request, after
    which 1.2.3.4 has one timestamp and the daily counter is 1. *)
Lemma invalid_prompt_is_recorded_witness :
  statusOf (handler sampleWorld shortPromptRequest (initial 0)).1 = Some 400
  ∧ (handler sampleWorld shortPromptRequest (initial 0)).2
    = (checkRateLimit 10000 "1.2.3.4" (initial 0)).2
  ∧ stored (handler sampleWorld shortPromptRequest (initial 0)).2 "1.2.3.4"
    = [10000]
  ∧ dailyCount (handler sampleWorld shortPromptRequest (initial 0)).2 = 1.
Proof.
  apply (invalid_prompt_is_recorded sampleWorld shortPromptRequest (initial 0)
           eq_refl eq_refl).
  right; right. exists "too short". split; [reflexivity|left; reflexivity].
Defined.

(** ** The fetch handler *)

Section FetchHandler.
Import Fetch.

Variable parseURL : string → option URL.
Variable fetchSite : string → FetchResult.

Lemma relay_status result : statusOf (relay result) ≠ Some 400.
Proof.
  destruct result as [m|response]; cbn; [done|].
  destruct (ok response); cbn; [|done]. by destruct (text response).
Qed.

(** A POST whose [url] is a non-empty string. *)
Lemma fetch_post_string req s :
  method req = "POST" → urlOf req = JString s → s ≠ "" →
  handler parseURL fetchSite req
  = match parseURL s with
    | None => jsonError 400 "Invalid URL"
    | Some parsed =>
        if allowedProtocol (protocol parsed)
        then relay (fetchSite (href parsed))
        else jsonError 400 "Invalid URL"
    end.
Proof.
  intros Hm Hurl Hs. unfold Fetch.handler.
  rewrite bool_decide_eq_false_2 by (rewrite Hm; discriminate).
  rewrite bool_decide_eq_false_2 by (rewrite Hm; auto).
  fold (urlOf req). rewrite Hurl. cbn [truthy isString strOf negb orb].
  rewrite bool_decide_eq_true_2 by done. cbn [negb].
  destruct (parseURL s) as [parsed|]; [|done].
  by destruct (allowedProtocol (protocol parsed)).
Qed.

(** A POST whose [url] is falsy or not a string. *)
Lemma fetch_post_missing req :
  method req = "POST" →
  truthy (urlOf req) = false ∨ isString (urlOf req) = false →
  handler parseURL fetchSite req = jsonError 400 "Missing url".
Proof.
  intros Hm Hbad. unfold Fetch.handler.
  rewrite bool_decide_eq_false_2 by (rewrite Hm; discriminate).
  rewrite bool_decide_eq_false_2 by (rewrite Hm; auto).
  fold (urlOf req). destruct Hbad as [-> | ->]; [done|].
  by rewrite orb_true_r.
Qed.

(** C8. For a POST to the fetch endpoint, the answer has status 400
    exactly when [url] is missing, is not a string, does not parse, or
    parses with a protocol other than [http:] and [https:].  The parser is
    the platform's; of it the statement uses that it refuses the empty
    string.  In particular [ftp://x.com], parsed with protocol [ftp:] (or
    refused), gives 400, and [https://example.com], parsed with protocol
    [https:], goes on to the outbound fetch of the parsed address. *)
Theorem url_validation req :
  parseURL "" = None →
  method req = "POST" →
  (statusOf (handler parseURL fetchSite req) = Some 400
   ↔ urlOf req = JUndefined ∨ isString (urlOf req) = false
     ∨ ∃ s, urlOf req = JString s
            ∧ (parseURL s = None
               ∨ ∃ parsed, parseURL s = Some parsed
                           ∧ protocol parsed ∉ ["http:"; "https:"]))
  ∧ (urlOf req = JString "ftp://x.com" →
     (∀ parsed, parseURL "ftp://x.com" = Some parsed →
                protocol parsed = "ftp:") →
     handler parseURL fetchSite req = jsonError 400 "Invalid URL")
  ∧ (∀ parsed,
       urlOf req = JString "https://example.com" →
       parseURL "https://example.com" = Some parsed →
       protocol parsed = "https:" →
       handler parseURL fetchSite req = relay (fetchSite (href parsed))
       ∧ statusOf (handler parseURL fetchSite req) ≠ Some 400).
Proof.
  intros Hempty Hm. split_and!.
  - destruct (isString (urlOf req)) eqn:Hstr.
    2:{ rewrite fetch_post_missing by auto. split; [by auto|done]. }
    destruct (urlOf req) as [| | | |s| |] eqn:Hurl; try done.
    destruct (decide (s = "")) as [->|Hs].
    { rewrite fetch_post_missing by (rewrite ?Hurl; auto).
      split; [intros _|done]. right; right. exists "". by auto. }
    rewrite (fetch_post_string req s) by done.
    destruct (parseURL s) as [parsed|] eqn:Hparse.
    + unfold allowedProtocol. case_bool_decide as Hp.
      * split; [intros H400; by apply relay_status in H400|].
        intros [H|[H|(s' & H & [Hp'|(p' & Hp' & Hnot)])]];
          [discriminate H|discriminate H|injection H as <-..].
        -- congruence.
        -- rewrite Hparse in Hp'. injection Hp' as <-. done.
      * split; [intros _|done]. right; right. exists s. split; [done|].
        right. by exists parsed.
    + split; [intros _|done]. right; right. exists s. by auto.
  - intros Hurl Hftp. rewrite (fetch_post_string req "ftp://x.com") by done.
    destruct (parseURL "ftp://x.com") as [parsed|] eqn:Hparse; [|done].
    by rewrite (Hftp parsed eq_refl).
  - intros parsed Hurl Hparse Hproto.
    assert (E : handler parseURL fetchSite req = relay (fetchSite (href parsed))).
    { rewrite (fetch_post_string req "https://example.com") by done.
      by rewrite Hparse, Hproto. }
    split; [done|]. rewrite E. apply relay_status.
Qed.

(** C9. For a POST whose URL has passed validation: a response that is not
    [ok] is answered 502 with the upstream status code in the message; a
    [fetch] that throws is answered 502 with the failure's message; and the
    answer is 200 exactly when [fetch] returned an [ok] response whose body
    could be read, in which case it is the whole body text in the single
    field [html]. *)
Theorem fetch_outcomes req s parsed :
  parseURL "" = None →
  method req = "POST" → urlOf req = JString s →
  parseURL s = Some parsed →
  protocol parsed ∈ ["http:"; "https:"] →
  (∀ response,
      fetchSite (href parsed) = FetchReturns response →
      ok response = false →
      handler parseURL fetchSite req
      = jsonError 502 ("Site returned " +:+ pretty (siteStatus response)))
  ∧ (∀ message,
      fetchSite (href parsed) = FetchThrows message →
      handler parseURL fetchSite req
      = jsonError 502 ("Could not reach site: " +:+ message))
  ∧ (statusOf (handler parseURL fetchSite req) = Some 200
     ↔ ∃ response html,
         fetchSite (href parsed) = FetchReturns response
         ∧ ok response = true ∧ text response = BodyText html)
  ∧ (∀ response html,
      fetchSite (href parsed) = FetchReturns response →
      ok response = true → text response = BodyText html →
      handler parseURL fetchSite req
      = Responded {| status := 200;
                     payload := Json (JObject {[ "html" := JString html ]}) |}).
Proof.
  intros Hempty Hm Hurl Hparse Hproto.
  assert (Hs : s ≠ "") by (intros ->; congruence).
  assert (E : handler parseURL fetchSite req = relay (fetchSite (href parsed))).
  { rewrite (fetch_post_string req s) by done. rewrite Hparse.
    unfold allowedProtocol. by rewrite bool_decide_eq_true_2. }
  rewrite E. split_and!.
  - intros response -> Hok. cbn. by rewrite Hok.
  - by intros message ->.
  - split.
    + destruct (fetchSite (href parsed)) as [m|response]; cbn; [done|].
      destruct (ok response) eqn:Hok; cbn; [|done].
      destruct (text response) as [html|m] eqn:Htext; [|done].
      intros _. by exists response, html.
    + intros (response & html & -> & Hok & Htext). cbn.
      by rewrite Hok, Htext.
  - intros response html -> Hok Htext. cbn. by rewrite Hok, Htext.
Qed.

End FetchHandler.

(** An instance of [url_validation]: the address [ftp://x.com] is
    answered 400. *)
Lemma url_validation_witness :
  Fetch.handler Fetch.exampleParseURL notFoundSite
    (fetchRequest (JString "ftp://x.com"))
  = jsonError 400 "Invalid URL".
Proof.
  apply (proj1 (proj2 (url_validation Fetch.exampleParseURL notFoundSite
                         (fetchRequest (JString "ftp://x.com"))
                         eq_refl eq_refl))).
  - reflexivity.
  - intros parsed Hparsed. injection Hparsed as <-. reflexivity.
Defined.

(** An instance of [fetch_outcomes]: the site answers 404, the handler
    502. *)
Lemma fetch_outcomes_witness :
  Fetch.handler Fetch.exampleParseURL notFoundSite
    (fetchRequest (JString "https://example.com"))
  = jsonError 502 "Site returned 404".
Proof.
  refine (proj1 (fetch_outcomes Fetch.exampleParseURL notFoundSite
                   (fetchRequest (JString "https://example.com"))
                   "https://example.com"
                   {| Fetch.protocol := "https:";
                      Fetch.href := "https://example.com/" |}
                   eq_refl eq_refl eq_refl eq_refl _) _ eq_refl eq_refl).
  apply list_elem_of_further, list_elem_of_here.
Defined.

(** ** The examples of the specification, evaluated *)

Example getIP_forwarded :
  getIP {| method := "POST";
           headers := {[ "x-forwarded-for" := " 1.2.3.4 , 5.6.7.8" ]};
           socket := None; body := JNull |} = "1.2.3.4".
Proof. reflexivity. Qed.

Example getIP_blank_forwarded :
  getIP {| method := "POST";
           headers := {[ "x-forwarded-for" := "  ,5.6.7.8";
                         "x-real-ip" := "9.9.9.9" ]};
           socket := None; body := JNull |} = "9.9.9.9".
Proof. reflexivity. Qed.

Example getIP_nothing :
  getIP {| method := "POST"; headers := ∅;
           socket := Some {| remoteAddress := None |}; body := JNull |}
  = "unknown".
Proof. reflexivity. Qed.

Example trim_both_ends :
  trim (String (ascii_of_nat 160) " a b  ") = "a b".
Proof. reflexivity. Qed.

Example four_calls_in_three_minutes :
  (run [(minutes 0, "1.2.3.4"); (minutes 1, "1.2.3.4");
        (minutes 2, "1.2.3.4"); (minutes 3, "1.2.3.4")] (initial 0)).1
  = [allowVerdict; allowVerdict; allowVerdict;
     {| allowed := false;
        reason := Some "You've used your 3 free analyses for this hour. Try again in ~57 minutes." |}].
Proof. vm_compute. reflexivity. Qed.

Example prompt_of_26_is_streamed :
  (handler sampleWorld longEnoughRequest (initial 0)).1
  = Responded {| status := 200;
                 payload := EventStream ["data: a"; "data: b"] |}.
Proof. reflexivity. Qed.

Example options_skips_the_limiter :
  handler sampleWorld
    {| method := "OPTIONS"; headers := ∅; socket := None; body := JUndefined |}
    (initial 0)
  = (Responded {| status := 200; payload := End |}, initial 0).
Proof. reflexivity. Qed.

(** ** Further properties of the limiter *)

Lemma stored_bounded st ip :
  bounded st → Z.of_nat (length (stored st ip)) ≤ RATE_LIMIT_MAX.
Proof.
  intros [Hs _]. unfold stored.
  destruct (ipStore st !! ip) as [ts|] eqn:E; cbn; [by eapply Hs|].
  unfold RATE_LIMIT_MAX. lia.
Qed.

Lemma zip_run_cons now ip rest st :
  zip ((now, ip) :: rest) (run ((now, ip) :: rest) st).1
  = ((now, ip), (checkRateLimit now ip st).1)
      :: zip rest (run rest (checkRateLimit now ip st).2).1.
Proof. by rewrite run_cons. Qed.

(** What one call adds to the timestamps of [ip] that are not before [a],
    when the call is made inside the window that starts at [a]. *)
Lemma since_check a now ip ip' st :
  a ≤ now < a + RATE_LIMIT_WINDOW →
  since a (checkRateLimit now ip' st).2 ip
  = since a st ip
      ++ (if decide (ip' = ip ∧ allowed (checkRateLimit now ip' st).1 = true)
          then [now] else []).
Proof.
  intros Hnow. unfold since.
  destruct (check_cases now ip' st) as [E | [E | (_ & _ & E)]]; rewrite E;
    cbn [fst snd allowed dailyDenied windowDenied allowVerdict].
  - rewrite stored_dailyTick, decide_False by (by intros [_ ?]).
    by rewrite app_nil_r.
  - rewrite stored_dailyTick, decide_False by (by intros [_ ?]).
    by rewrite app_nil_r.
  - destruct (decide (ip' = ip)) as [->|Hne].
    + rewrite decide_True by done. rewrite stored_recorded, filter_app.
      f_equal.
      * unfold live. apply list_filter_filter_l. intros t Ht. lia.
      * rewrite filter_cons_True; [done|lia].
    + rewrite decide_False by (by intros [? _]).
      rewrite stored_recorded_ne by done. by rewrite app_nil_r.
Qed.

Lemma since_run a ip calls : ∀ st,
  Forall (λ call, a ≤ call.1 < a + RATE_LIMIT_WINDOW) calls →
  length (since a (run calls st).2 ip)
  = (length (since a st ip) + allowedFor ip calls st)%nat.
Proof.
  unfold allowedFor.
  induction calls as [|[now ip'] rest IH]; intros st Hall.
  { cbn. lia. }
  apply Forall_cons in Hall as [Hnow Hrest]. cbn [fst] in Hnow.
  rewrite zip_run_cons, run_cons. cbn [snd].
  rewrite IH by done. rewrite since_check by done. rewrite length_app.
  rewrite filter_cons. cbn [fst snd].
  destruct (decide (ip' = ip ∧ allowed (checkRateLimit now ip' st).1 = true));
    cbn [length]; lia.
Qed.

(** X1. The rate the window enforces.  Among calls whose clock readings
    all lie in one stretch shorter than the window, [a <= now < a + 1 h],
    the limiter allows at most [RATE_LIMIT_MAX] (3) for any one identifier,
    counting the timestamps from that stretch the identifier already had,
    whatever the other identifiers do and in whatever order the readings
    come. *)
Theorem window_allows_at_most_max a ip calls st :
  bounded st →
  Forall (λ call, a ≤ call.1 < a + RATE_LIMIT_WINDOW) calls →
  Z.of_nat (length (since a st ip) + allowedFor ip calls st) ≤ RATE_LIMIT_MAX.
Proof.
  intros Hb Hall. rewrite <- since_run by done.
  pose proof (stored_bounded (run calls st).2 ip (bounded_run calls st Hb)).
  pose proof (length_filter (λ t, a ≤ t) (stored (run calls st).2 ip)).
  unfold since. lia.
Qed.

(** An instance of [window_allows_at_most_max]: five calls of one
    identifier in four minutes, of which three are allowed. *)
Lemma window_allows_at_most_max_witness :
  Z.of_nat
    (length (since 0 (initial 0) "1.2.3.4")
     + allowedFor "1.2.3.4"
         [(0, "1.2.3.4"); (60000, "1.2.3.4"); (120000, "5.6.7.8");
          (180000, "1.2.3.4"); (240000, "1.2.3.4")] (initial 0))
  ≤ RATE_LIMIT_MAX.
Proof.
  apply (window_allows_at_most_max 0 "1.2.3.4").
  - apply bounded_initial.
  - unfold RATE_LIMIT_WINDOW. repeat constructor; cbn; lia.
Defined.

Lemma dailyCount_check_early now ip st :
  now ≤ dailyReset st →
  dailyCount (checkRateLimit now ip st).2
  = dailyCount st + (if allowed (checkRateLimit now ip st).1 then 1 else 0)
  ∧ dailyReset (checkRateLimit now ip st).2 = dailyReset st.
Proof.
  intros Hearly.
  destruct (check_cases now ip st) as [E | [E | (_ & _ & E)]]; rewrite E;
    cbn [fst snd allowed dailyDenied windowDenied allowVerdict];
    unfold recorded; rewrite dailyTick_early by done; cbn; split; lia.
Qed.

(** X2. The daily counter counts the allowed calls.  Along calls none of
    which comes after [dailyReset], the reset timestamp stays put and the
    counter grows by exactly the number of calls allowed; so from a state
    within its bounds no more than [DAILY_GLOBAL_CAP - dailyCount] calls
    are allowed before the reset, all identifiers together. *)
Theorem daily_counter_counts_allowed calls : ∀ st,
  Forall (λ call, call.1 ≤ dailyReset st) calls →
  dailyCount (run calls st).2 = dailyCount st + Z.of_nat (allowedTotal calls st)
  ∧ dailyReset (run calls st).2 = dailyReset st
  ∧ (bounded st →
     Z.of_nat (allowedTotal calls st) ≤ DAILY_GLOBAL_CAP - dailyCount st).
Proof.
  assert (Hcount : ∀ st,
    Forall (λ call, call.1 ≤ dailyReset st) calls →
    dailyCount (run calls st).2
    = dailyCount st + Z.of_nat (allowedTotal calls st)
    ∧ dailyReset (run calls st).2 = dailyReset st).
  { unfold allowedTotal.
    induction calls as [|[now ip] rest IH]; intros st Hall.
    { cbn. split; lia. }
    apply Forall_cons in Hall as [Hnow Hrest]. cbn [fst] in Hnow.
    destruct (dailyCount_check_early now ip st Hnow) as [Hc Hr].
    rewrite run_cons. cbn [fst snd].
    destruct (IH (checkRateLimit now ip st).2) as [IHc IHr].
    { by rewrite Hr. }
    rewrite IHc, IHr, Hc, Hr, filter_cons. split; [|done].
    destruct (allowed (checkRateLimit now ip st).1) eqn:Ha.
    - rewrite decide_True by done. cbn [length]. lia.
    - rewrite decide_False by done. lia. }
  intros st Hall. destruct (Hcount st Hall) as [Hc Hr].
  split_and!; [done|done|]. intros Hb.
  pose proof (bounded_run calls st Hb) as [_ Hcap]. lia.
Qed.

(** An instance of [daily_counter_counts_allowed]: with the counter at 99,
    one of two calls is allowed. *)
Lemma daily_counter_counts_allowed_witness :
  let st := {| ipStore := ∅; dailyCount := 99; dailyReset := DAY_MS |} in
  let calls := [(0, "1.2.3.4"); (1000, "5.6.7.8")] in
  dailyCount (run calls st).2 = dailyCount st + Z.of_nat (allowedTotal calls st)
  ∧ dailyReset (run calls st).2 = dailyReset st
  ∧ (bounded st →
     Z.of_nat (allowedTotal calls st) ≤ DAILY_GLOBAL_CAP - dailyCount st).
Proof.
  intros st calls. refine (daily_counter_counts_allowed calls st _).
  subst st calls.
  repeat (constructor; [cbn; unfold DAY_MS; lia|]). constructor.
Defined.

(** X3. Identifiers do not interfere through the store.  A call for [ip]
    leaves the entry of every other identifier exactly as it was, and its
    own verdict depends on the state only through the two daily variables
    and the sequence stored for [ip]. *)
Theorem identifiers_are_isolated now ip st :
  (∀ ip', ip ≠ ip' →
     ipStore (checkRateLimit now ip st).2 !! ip' = ipStore st !! ip')
  ∧ (∀ st',
       dailyCount st' = dailyCount st → dailyReset st' = dailyReset st →
       stored st' ip = stored st ip →
       (checkRateLimit now ip st').1 = (checkRateLimit now ip st).1).
Proof.
  split.
  - intros ip' Hne.
    destruct (check_cases now ip st) as [-> | [-> | (_ & _ & ->)]];
      cbn [snd]; rewrite ?ipStore_dailyTick; [done..|].
    unfold recorded. cbn [ipStore].
    by rewrite lookup_insert_ne, ipStore_dailyTick.
  - intros st' Hc Hr Hs.
    assert (Htick : dailyCount (dailyTick now st')
                    = dailyCount (dailyTick now st)).
    { unfold dailyTick. rewrite Hr. by case_bool_decide. }
    destruct (check_cases now ip st) as [E | [E | (Hcount & Hlen & E)]];
      rewrite E; cbn [fst].
    + destruct (decide (dailyCount (dailyTick now st) >= DAILY_GLOBAL_CAP))
        as [Hcap|Hcap].
      * rewrite check_daily; [done|]. by rewrite Htick.
      * unfold checkRateLimit in E. cbv zeta in E.
        rewrite bool_decide_eq_false_2 in E by done.
        destruct (bool_decide _) in E; discriminate E.
    + destruct (decide (dailyCount (dailyTick now st) >= DAILY_GLOBAL_CAP))
        as [Hcap|Hcap].
      { rewrite check_daily in E by done. discriminate E. }
      destruct (decide (Z.of_nat (length (live now (stored st ip)))
                        >= RATE_LIMIT_MAX)) as [Hfull|Hroom].
      * rewrite check_window; rewrite ?Hs, ?Htick; [done|lia|done].
      * rewrite check_allowed in E by lia. discriminate E.
    + rewrite check_allowed; rewrite ?Hs, ?Htick; done.
Qed.

(** An instance of the first part of [identifiers_are_isolated]: a call of
    5.6.7.8 leaves the full window of 1.2.3.4 alone. *)
Lemma identifiers_are_isolated_witness :
  let st := {| ipStore := {[ "1.2.3.4" := [0; 60000; 120000] ]};
               dailyCount := 3; dailyReset := DAY_MS |} in
  ipStore (checkRateLimit 180000 "5.6.7.8" st).2 !! "1.2.3.4"
  = ipStore st !! "1.2.3.4".
Proof.
  intros st.
  apply (proj1 (identifiers_are_isolated 180000 "5.6.7.8" st)).
  discriminate.
Defined.

(** X4. The retry advice is sound.  When a call at [now] is denied by the
    window with retry-after [r], then at any time from [now + r] minutes on
    the window of that identifier has room again (one of at most
    [RATE_LIMIT_MAX] stored timestamps, the one [r] was computed from, has
    left it), so a new call is allowed unless the daily cap denies it. *)
Theorem retry_advice_is_sound now now' ip st :
  bounded st →
  dailyCount (dailyTick now st) < DAILY_GLOBAL_CAP →
  Z.of_nat (length (live now (stored st ip))) >= RATE_LIMIT_MAX →
  now + 60000 * retryAfter now (live now (stored st ip)) ≤ now' →
  (checkRateLimit now ip st).1
  = windowDenied (retryAfter now (live now (stored st ip)))
  ∧ Z.of_nat (length (live now' (stored (checkRateLimit now ip st).2 ip)))
    < RATE_LIMIT_MAX
  ∧ (dailyCount (dailyTick now' (checkRateLimit now ip st).2)
     < DAILY_GLOBAL_CAP →
     (checkRateLimit now' ip (checkRateLimit now ip st).2).1 = allowVerdict).
Proof.
  intros Hb Hc Hfull Hwait.
  rewrite check_window by done. cbn [fst snd]. rewrite stored_dailyTick.
  assert (Hroom : Z.of_nat (length (live now' (stored st ip)))
                  < RATE_LIMIT_MAX).
  { destruct (live now (stored st ip)) as [|t0 rest] eqn:Elive.
    { cbn in Hfull. unfold RATE_LIMIT_MAX in Hfull. lia. }
    assert (Hin : t0 ∈ stored st ip).
    { apply (live_sub now). rewrite Elive. left. }
    change (retryAfter now (t0 :: rest))
      with (ceil_div (t0 + RATE_LIMIT_WINDOW - now) 60000) in Hwait.
    pose proof (ceil_div_spec (t0 + RATE_LIMIT_WINDOW - now) 60000
                  ltac:(lia)) as Hceil.
    assert (Hgone : ¬ now' - t0 < RATE_LIMIT_WINDOW) by lia.
    pose proof (length_filter_lt (λ t, now' - t < RATE_LIMIT_WINDOW)
                  (stored st ip) t0 Hin Hgone) as Hlt.
    pose proof (stored_bounded st ip Hb). unfold live. lia. }
  split_and!; [done|done|].
  intros Hc'. rewrite check_allowed; [done|done|].
  by rewrite stored_dailyTick.
Qed.

(** An instance of [retry_advice_is_sound]: denied at 3 minutes with
    retry-after 57, allowed at 60 minutes. *)
Lemma retry_advice_is_sound_witness :
  let st := {| ipStore := {[ "1.2.3.4" := [0; 60000; 120000] ]};
               dailyCount := 3; dailyReset := DAY_MS |} in
  (checkRateLimit 180000 "1.2.3.4" st).1
  = windowDenied (retryAfter 180000 (live 180000 (stored st "1.2.3.4")))
  ∧ Z.of_nat (length (live 3600000
                        (stored (checkRateLimit 180000 "1.2.3.4" st).2
                           "1.2.3.4")))
    < RATE_LIMIT_MAX
  ∧ (dailyCount (dailyTick 3600000 (checkRateLimit 180000 "1.2.3.4" st).2)
     < DAILY_GLOBAL_CAP →
     (checkRateLimit 3600000 "1.2.3.4"
        (checkRateLimit 180000 "1.2.3.4" st).2).1 = allowVerdict).
Proof.
  intros st. apply (retry_advice_is_sound 180000 3600000 "1.2.3.4" st).
  - split; cbn [ipStore dailyCount st].
    + intros ip ts Hts. apply lookup_singleton_Some in Hts as [_ <-].
      cbn. unfold RATE_LIMIT_MAX. lia.
    + unfold DAILY_GLOBAL_CAP. lia.
  - vm_compute. reflexivity.
  - vm_compute. discriminate.
  - vm_compute. discriminate.
Defined.

(** X5. Stored sequences are in time order.  In every state reached from a
    cold start by calls whose clock readings never decrease, the sequence
    of each identifier is sorted, oldest first; so the element the retry
    computation reads, [timestamps[0]], is the earliest of the timestamps
    that survive the pruning, at whatever time the pruning is done. *)
Theorem stored_oldest_first boot calls :
  clockMonotone boot calls →
  ∀ ip,
    StronglySorted Z.le (stored (run calls (initial boot)).2 ip)
    ∧ ∀ now,
        Forall (λ t, oldest (live now (stored (run calls (initial boot)).2 ip))
                     ≤ t)
          (live now (stored (run calls (initial boot)).2 ip)).
Proof.
  intros Hm ip.
  assert (Hs : StronglySorted Z.le (stored (run calls (initial boot)).2 ip)).
  { apply (sorted_run calls boot); [done|apply allPast_initial|].
    intros ip'. unfold stored, initial; cbn. rewrite lookup_empty.
    constructor. }
  split; [done|]. intros now.
  pose proof (StronglySorted_live now _ Hs) as Hl.
  destruct (live now (stored (run calls (initial boot)).2 ip))
    as [|t0 rest]; [constructor|].
  apply StronglySorted_cons in Hl as [Hall _].
  constructor; [cbn; lia|exact Hall].
Qed.

(** An instance of [stored_oldest_first]: three calls a minute apart. *)
Lemma stored_oldest_first_witness :
  StronglySorted Z.le
    (stored (run [(0, "1.2.3.4"); (60000, "1.2.3.4"); (120000, "1.2.3.4")]
               (initial 0)).2 "1.2.3.4").
Proof.
  refine (proj1 (stored_oldest_first 0
                   [(0, "1.2.3.4"); (60000, "1.2.3.4"); (120000, "1.2.3.4")]
                   _ "1.2.3.4")).
  cbn. lia.
Defined.

Lemma live_live now now' ts :
  now ≤ now' → live now' (live now ts) = live now' ts.
Proof.
  intros Hle. unfold live. apply list_filter_filter_l. intros t Ht. lia.
Qed.

Lemma dailyTick_withStored now ip ts st :
  dailyTick now (withStored ip ts st) = withStored ip ts (dailyTick now st).
Proof. unfold dailyTick, withStored. cbn. by case_bool_decide. Qed.

(** X6. Pruning is not observable.  Writing back the sequence of an
    identifier pruned at [now] (which the code does only on an allowed
    call) or keeping the unpruned one (which it does on a denied call)
    makes no difference to any later call of that identifier: at every
    [now' >= now] the verdict is the same, and when the call is allowed so
    is the state it leaves. *)
Theorem pruning_is_unobservable now now' ip st :
  now ≤ now' →
  let pruned := withStored ip (live now (stored st ip)) st in
  (checkRateLimit now' ip pruned).1 = (checkRateLimit now' ip st).1
  ∧ (allowed (checkRateLimit now' ip st).1 = true →
     (checkRateLimit now' ip pruned).2 = (checkRateLimit now' ip st).2).
Proof.
  intros Hle pruned.
  assert (Hstored : stored pruned ip = live now (stored st ip)).
  { unfold pruned, withStored, stored. cbn. by rewrite lookup_insert_eq. }
  assert (Hcount : dailyCount (dailyTick now' pruned)
                   = dailyCount (dailyTick now' st)).
  { unfold pruned. by rewrite dailyTick_withStored. }
  assert (Hlive : live now' (stored pruned ip) = live now' (stored st ip)).
  { rewrite Hstored. by apply live_live. }
  destruct (check_cases now' ip st) as [E | [E | (Hc & Hl & E)]].
  - destruct (decide (dailyCount (dailyTick now' st) >= DAILY_GLOBAL_CAP))
      as [Hcap|Hcap].
    + rewrite E, check_daily by (by rewrite Hcount). by split.
    + unfold checkRateLimit in E. cbv zeta in E.
      rewrite bool_decide_eq_false_2 in E by done.
      destruct (bool_decide _) in E; discriminate E.
  - destruct (decide (dailyCount (dailyTick now' st) >= DAILY_GLOBAL_CAP))
      as [Hcap|Hcap].
    { rewrite check_daily in E by done. discriminate E. }
    destruct (decide (Z.of_nat (length (live now' (stored st ip)))
                      >= RATE_LIMIT_MAX)) as [Hfull|Hroom].
    + rewrite E, check_window; rewrite ?Hlive, ?Hcount; [by split|lia|done].
    + rewrite check_allowed in E by lia. discriminate E.
  - rewrite E, check_allowed; rewrite ?Hlive, ?Hcount; [|done..].
    split; [done|]. intros _. cbn [snd]. unfold recorded.
    rewrite stored_dailyTick, Hlive, stored_dailyTick.
    unfold pruned. rewrite dailyTick_withStored. unfold withStored. cbn.
    by rewrite insert_insert_eq.
Qed.

(** An instance of [pruning_is_unobservable]: a sequence with one expired
    entry, pruned at 61 minutes, and a call at 62 minutes. *)
Lemma pruning_is_unobservable_witness :
  let st := {| ipStore := {[ "1.2.3.4" := [0; 3000000; 3600000] ]};
               dailyCount := 3; dailyReset := DAY_MS |} in
  let pruned := withStored "1.2.3.4" (live 3660000 (stored st "1.2.3.4")) st in
  (checkRateLimit 3720000 "1.2.3.4" pruned).1
  = (checkRateLimit 3720000 "1.2.3.4" st).1
  ∧ (allowed (checkRateLimit 3720000 "1.2.3.4" st).1 = true →
     (checkRateLimit 3720000 "1.2.3.4" pruned).2
     = (checkRateLimit 3720000 "1.2.3.4" st).2).
Proof.
  intros st. apply (pruning_is_unobservable 3660000 3720000 "1.2.3.4" st).
  lia.
Defined.

(** X7. The reset timestamp only moves forward.  After a call at [now] the
    reset timestamp is not before [now], it is the old one or [now + 24 h],
    never an earlier one; and the daily counter, zero at a cold start, is
    never negative. *)
Theorem daily_window_moves_forward :
  (∀ now ip st,
      now ≤ dailyReset (checkRateLimit now ip st).2
      ∧ dailyReset st ≤ dailyReset (checkRateLimit now ip st).2
      ∧ (dailyReset (checkRateLimit now ip st).2 = dailyReset st
         ∨ dailyReset (checkRateLimit now ip st).2 = now + DAY_MS))
  ∧ (∀ calls boot, 0 ≤ dailyCount (run calls (initial boot)).2).
Proof.
  split.
  - intros now ip st.
    assert (Hr : dailyReset (checkRateLimit now ip st).2
                 = dailyReset (dailyTick now st)).
    { by destruct (check_cases now ip st) as [-> | [-> | (_ & _ & ->)]]. }
    rewrite Hr. unfold dailyTick, DAY_MS. case_bool_decide; cbn; lia.
  - intros calls boot.
    assert (Hgen : ∀ st, 0 ≤ dailyCount st → 0 ≤ dailyCount (run calls st).2).
    { induction calls as [|[now ip] rest IH]; intros st Hst; [done|].
      rewrite run_cons. cbn [snd]. apply IH.
      pose proof (dailyTick_count now st).
      destruct (check_cases now ip st) as [-> | [-> | (_ & _ & ->)]];
        cbn [snd]; unfold recorded; cbn; lia. }
    by apply Hgen.
Qed.

(** ** Further properties of the generation handler *)

Lemma handler_not_post w req st :
  method req ≠ "POST" →
  handler w req st
  = (if bool_decide (method req = "OPTIONS")
     then Responded {| status := 200; payload := End |}
     else jsonError 405 "Method not allowed", st).
Proof.
  intros Hm. unfold handler. case_bool_decide; [done|].
  by rewrite bool_decide_eq_true_2.
Qed.

Lemma handler_denied w req st :
  method req = "POST" →
  allowed (checkRateLimit (clock w) (getIP req) st).1 = false →
  handler w req st
  = (Responded
       {| status := 429;
          payload := Json (errorObject
            (from_option JString JUndefined
               (reason (checkRateLimit (clock w) (getIP req) st).1))) |},
     (checkRateLimit (clock w) (getIP req) st).2).
Proof.
  intros Hm Hden. unfold handler.
  rewrite bool_decide_eq_false_2 by (rewrite Hm; discriminate).
  rewrite bool_decide_eq_false_2 by (rewrite Hm; auto).
  destruct (checkRateLimit (clock w) (getIP req) st) as [v st1].
  cbn [fst snd] in *. by rewrite Hden.
Qed.

Lemma validPrompt_checks p :
  validPrompt p
  ↔ promptInvalid p = false ∧ ¬ strLength p > 12000.
Proof.
  rewrite promptInvalid_false. unfold validPrompt. split.
  - intros (s & -> & Hlen). split; [exists s; split; [done|lia]|cbn; lia].
  - intros [(s & -> & Hlen) Hmax]. exists s. cbn in Hmax. split; [done|lia].
Qed.

Lemma orElse_key key :
  orElse key None = None ↔ ¬ ∃ k, key = Some k ∧ k ≠ "".
Proof.
  unfold orElse. destruct key as [k|]; [|by split; [intros _ (? & ? & _)|]].
  case_bool_decide as Hk.
  - split; [done|]. intros Hno. exfalso. apply Hno. by exists k.
  - split; [|done]. intros _ (k' & [= <-] & Hne). done.
Qed.

(** What [handler] answers on a request that reaches the upstream call. *)
Lemma handler_upstream w req st key s :
  method req = "POST" →
  allowed (checkRateLimit (clock w) (getIP req) st).1 = true →
  promptOf req = JString s → 20 ≤ Z.of_nat (String.length s) ≤ 12000 →
  ANTHROPIC_API_KEY w = Some key → key ≠ "" →
  (handler w req st).1
  = match anthropic w key s with
    | UpstreamThrows => Thrown
    | UpstreamNotOk err =>
        Responded
          {| status := 502;
             payload := Json (errorObject
               (or (optField "message" (optField "error" err))
                   (JString "Upstream API error"))) |}
    | UpstreamOk chunks =>
        Responded {| status := 200; payload := EventStream chunks |}
    end.
Proof.
  intros Hm Ha Hp Hlen Hkey Hne. rewrite handler_passed by done. cbn [fst].
  assert (Hv : validPrompt (promptOf req)) by (by exists s).
  apply validPrompt_checks in Hv as [-> Hmax].
  rewrite bool_decide_eq_false_2 by done.
  rewrite Hkey, orElse_nonempty by done. by rewrite Hp.
Qed.

(** X8. Requests that are not POSTs never reach the limiter.  An OPTIONS
    request is answered 200 with no body and every other method but POST
    405, whatever the body, the headers and the limiter state are, and the
    state is left as it was: nothing is pruned, recorded or reset. *)
Theorem other_methods_skip_limiter w req st :
  method req ≠ "POST" →
  (handler w req st).2 = st
  ∧ (method req = "OPTIONS" →
     (handler w req st).1 = Responded {| status := 200; payload := End |})
  ∧ (method req ≠ "OPTIONS" →
     (handler w req st).1 = jsonError 405 "Method not allowed").
Proof.
  intros Hm. rewrite handler_not_post by done. cbn [fst snd].
  split_and!; [done| |].
  - intros Ho. by rewrite bool_decide_eq_true_2.
  - intros Ho. by rewrite bool_decide_eq_false_2.
Qed.

(** An instance of [other_methods_skip_limiter]: a GET. *)
Lemma other_methods_skip_limiter_witness :
  let req := {| method := "GET"; headers := ∅; socket := None;
                body := JUndefined |} in
  (handler sampleWorld req (initial 0)).2 = initial 0
  ∧ (method req = "OPTIONS" →
     (handler sampleWorld req (initial 0)).1
     = Responded {| status := 200; payload := End |})
  ∧ (method req ≠ "OPTIONS" →
     (handler sampleWorld req (initial 0)).1
     = jsonError 405 "Method not allowed").
Proof.
  intros req. apply (other_methods_skip_limiter sampleWorld req (initial 0)).
  discriminate.
Defined.

(** X9. A POST costs exactly one call of the limiter.  Whatever the body,
    the API key and the upstream do, the state a POST leaves is the state
    [checkRateLimit] left for the identifier of the request at the clock
    reading, and for any other method it is the state as it was; so the
    handler keeps the bounds of the limiter (at most [RATE_LIMIT_MAX]
    timestamps per identifier, counter at most [DAILY_GLOBAL_CAP]). *)
Theorem handler_state_is_limiter_state w req st :
  (handler w req st).2
  = (if bool_decide (method req = "POST")
     then (checkRateLimit (clock w) (getIP req) st).2 else st)
  ∧ (bounded st → bounded (handler w req st).2).
Proof.
  assert (Hst : (handler w req st).2
    = (if bool_decide (method req = "POST")
       then (checkRateLimit (clock w) (getIP req) st).2 else st)).
  { case_bool_decide as Hm; [|by rewrite handler_not_post].
    destruct (allowed (checkRateLimit (clock w) (getIP req) st).1) eqn:Ha.
    - rewrite handler_passed by done. cbn [snd].
      destruct (check_cases (clock w) (getIP req) st)
        as [E | [E | (_ & _ & E)]]; rewrite E in Ha |- *; done.
    - by rewrite handler_denied. }
  split; [done|]. intros Hb. rewrite Hst.
  case_bool_decide; [by apply bounded_check|done].
Qed.

(** An instance of the second part of [handler_state_is_limiter_state]. *)
Lemma handler_state_is_limiter_state_witness :
  bounded (handler sampleWorld shortPromptRequest (initial 0)).2.
Proof.
  apply (proj2 (handler_state_is_limiter_state sampleWorld shortPromptRequest
                  (initial 0))).
  apply bounded_initial.
Defined.

(** X10. A rate-limited POST is answered 429 with the reason of the
    limiter as its error text, one of the two denial messages, before the
    body is looked at: the answer is the same for every body, API key and
    upstream. *)
Theorem rate_limited_is_429 w req st :
  method req = "POST" →
  allowed (checkRateLimit (clock w) (getIP req) st).1 = false →
  ∃ r,
    reason (checkRateLimit (clock w) (getIP req) st).1 = Some r
    ∧ (r = dailyReason
       ∨ r = windowReason
               (retryAfter (clock w)
                  (live (clock w) (stored st (getIP req)))))
    ∧ (handler w req st).1 = jsonError 429 r
    ∧ ∀ w' body',
        clock w' = clock w →
        (handler w' {| method := method req; headers := headers req;
                       socket := socket req; body := body' |} st).1
        = jsonError 429 r.
Proof.
  intros Hm Hden.
  assert (Hr : ∃ r,
    reason (checkRateLimit (clock w) (getIP req) st).1 = Some r
    ∧ (r = dailyReason
       ∨ r = windowReason
               (retryAfter (clock w)
                  (live (clock w) (stored st (getIP req)))))).
  { destruct (check_cases (clock w) (getIP req) st)
      as [E | [E | (_ & _ & E)]]; rewrite E in Hden |- *; cbn; eauto.
    discriminate Hden. }
  destruct Hr as (r & Hr & Hwhich). exists r. split_and!; [done|done| |].
  - rewrite handler_denied by done. cbn [fst]. by rewrite Hr.
  - intros w' body' Hclock.
    set (req' := {| method := method req; headers := headers req;
                    socket := socket req; body := body' |}).
    assert (Hip : getIP req' = getIP req) by done.
    rewrite handler_denied; rewrite ?Hclock, ?Hip; [|done..].
    cbn [fst]. by rewrite Hr.
Qed.

(** An instance of [rate_limited_is_429]: the daily cap is reached. *)
Lemma rate_limited_is_429_witness :
  let st := {| ipStore := ∅; dailyCount := 100; dailyReset := DAY_MS |} in
  ∃ r,
    reason (checkRateLimit (clock sampleWorld) (getIP longEnoughRequest) st).1
    = Some r
    ∧ (r = dailyReason
       ∨ r = windowReason
               (retryAfter (clock sampleWorld)
                  (live (clock sampleWorld)
                     (stored st (getIP longEnoughRequest)))))
    ∧ (handler sampleWorld longEnoughRequest st).1 = jsonError 429 r
    ∧ ∀ w' body',
        clock w' = clock sampleWorld →
        (handler w' {| method := method longEnoughRequest;
                       headers := headers longEnoughRequest;
                       socket := socket longEnoughRequest;
                       body := body' |} st).1
        = jsonError 429 r.
Proof.
  intros st.
  apply (rate_limited_is_429 sampleWorld longEnoughRequest st);
    reflexivity.
Defined.

(** The three ways a POST that passed the limiter can go. *)
Lemma handler_passed_cases w req st :
  method req = "POST" →
  allowed (checkRateLimit (clock w) (getIP req) st).1 = true →
  (¬ validPrompt (promptOf req)
   ∧ ((handler w req st).1 = jsonError 400 "Invalid request"
      ∨ (handler w req st).1 = jsonError 400 "Prompt too large"))
  ∨ (validPrompt (promptOf req)
     ∧ (¬ ∃ k, ANTHROPIC_API_KEY w = Some k ∧ k ≠ "")
     ∧ (handler w req st).1
       = jsonError 500 "Server misconfiguration — API key not set")
  ∨ (∃ key s,
       promptOf req = JString s
       ∧ 20 ≤ Z.of_nat (String.length s) ≤ 12000
       ∧ ANTHROPIC_API_KEY w = Some key ∧ key ≠ ""
       ∧ (handler w req st).1
         = match anthropic w key s with
           | UpstreamThrows => Thrown
           | UpstreamNotOk err =>
               Responded
                 {| status := 502;
                    payload := Json (errorObject
                      (or (optField "message" (optField "error" err))
                          (JString "Upstream API error"))) |}
           | UpstreamOk chunks =>
               Responded {| status := 200; payload := EventStream chunks |}
           end).
Proof.
  intros Hm Ha.
  destruct (promptInvalid (promptOf req)) eqn:Hinv.
  { left. split.
    - rewrite validPrompt_checks. intros [? _]. congruence.
    - left. rewrite handler_passed by done. by rewrite Hinv. }
  destruct (decide (strLength (promptOf req) > 12000)) as [Hbig|Hok].
  { left. split.
    - rewrite validPrompt_checks. by intros [_ ?].
    - right. rewrite handler_passed by done. rewrite Hinv.
      by rewrite bool_decide_eq_true_2. }
  assert (Hv : validPrompt (promptOf req)) by (by apply validPrompt_checks).
  destruct (orElse (ANTHROPIC_API_KEY w) None) as [key|] eqn:Hkey.
  - right; right. destruct Hv as (s & Hs & Hlen).
    assert (Hk : ANTHROPIC_API_KEY w = Some key ∧ key ≠ "").
    { unfold orElse in Hkey. destruct (ANTHROPIC_API_KEY w) as [k|]; [|done].
      case_bool_decide; [|done]. injection Hkey as ->. by split. }
    destruct Hk as [Hk Hne]. exists key, s.
    split_and!; [done|lia|lia|done|done|].
    by apply handler_upstream.
  - right; left. split_and!; [done|by apply orElse_key|].
    rewrite handler_passed by done. cbn [fst]. rewrite Hinv.
    rewrite bool_decide_eq_false_2 by done. by rewrite Hkey.
Qed.

(** X11. A missing API key is a server fault, found late.  A POST that
    passes the limiter with a valid prompt while the key is unset or empty
    is answered 500, whatever the upstream would do, and the request stays
    counted against the identifier and the daily cap. *)
Theorem missing_key_is_500 w req st :
  method req = "POST" →
  allowed (checkRateLimit (clock w) (getIP req) st).1 = true →
  validPrompt (promptOf req) →
  ANTHROPIC_API_KEY w = None ∨ ANTHROPIC_API_KEY w = Some "" →
  (handler w req st).1
  = jsonError 500 "Server misconfiguration — API key not set"
  ∧ stored (handler w req st).2 (getIP req)
    = live (clock w) (stored st (getIP req)) ++ [clock w]
  ∧ dailyCount (handler w req st).2
    = dailyCount (dailyTick (clock w) st) + 1.
Proof.
  intros Hm Ha Hv Hkey. split.
  - destruct (handler_passed_cases w req st Hm Ha)
      as [[Hno _] | [(_ & _ & E) | (key & s & _ & _ & Hk & Hne & _)]];
      [done|done|].
    exfalso. destruct Hkey as [Hkey|Hkey]; rewrite Hkey in Hk; [done|].
    injection Hk as <-. done.
  - rewrite handler_passed by done. cbn [snd].
    split; [apply stored_recorded|done].
Qed.

(** An instance of [missing_key_is_500]: a valid first request in a
    deployment without the key. *)
Lemma missing_key_is_500_witness :
  let w := {| clock := 10000; ANTHROPIC_API_KEY := None;
              anthropic := λ _ _, UpstreamOk [] |} in
  (handler w longEnoughRequest (initial 0)).1
  = jsonError 500 "Server misconfiguration — API key not set"
  ∧ stored (handler w longEnoughRequest (initial 0)).2
      (getIP longEnoughRequest)
    = live (clock w) (stored (initial 0) (getIP longEnoughRequest))
        ++ [clock w]
  ∧ dailyCount (handler w longEnoughRequest (initial 0)).2
    = dailyCount (dailyTick (clock w) (initial 0)) + 1.
Proof.
  intros w. apply (missing_key_is_500 w longEnoughRequest (initial 0)).
  - reflexivity.
  - reflexivity.
  - exists "abcdefghijklmnopqrstuvwxyz". split; [reflexivity|cbn; lia].
  - left. reflexivity.
Defined.

(** X12. The upstream API is called only for requests that deserve it.
    Unless the request is a POST that the limiter allows, with a valid
    prompt, in a deployment whose key is set, the answer and the state do
    not depend on the upstream at all. *)
Theorem upstream_only_when_reached w req st :
  ¬ reachesUpstream w req st →
  ∀ up, handler (withUpstream up w) req st = handler w req st.
Proof.
  intros Hno up.
  destruct (decide (method req = "POST")) as [Hm|Hm];
    [|by rewrite !handler_not_post].
  destruct (allowed (checkRateLimit (clock w) (getIP req) st).1) eqn:Ha;
    [|by rewrite !handler_denied].
  rewrite (handler_passed (withUpstream up w)), (handler_passed w) by done.
  cbn [clock ANTHROPIC_API_KEY withUpstream anthropic]. f_equal.
  destruct (promptInvalid (promptOf req)) eqn:Hinv; [done|].
  case_bool_decide as Hbig; [done|].
  destruct (orElse (ANTHROPIC_API_KEY w) None) as [key|] eqn:Hkey; [|done].
  exfalso. apply Hno. split_and!; [done|done|by apply validPrompt_checks|].
  exists key. unfold orElse in Hkey.
  destruct (ANTHROPIC_API_KEY w) as [k|]; [|done].
  case_bool_decide; [|done]. injection Hkey as ->. by split.
Qed.

(** An instance of [upstream_only_when_reached]: a prompt that is too
    short, and an upstream that would throw. *)
Lemma upstream_only_when_reached_witness :
  handler (withUpstream (λ _ _, UpstreamThrows) sampleWorld)
    shortPromptRequest (initial 0)
  = handler sampleWorld shortPromptRequest (initial 0).
Proof.
  apply (upstream_only_when_reached sampleWorld shortPromptRequest
           (initial 0)).
  intros (_ & _ & (s & Hs & Hlen) & _).
  change (JString "too short" = JString s) in Hs. injection Hs as <-.
  change (20 ≤ 9 ≤ 12000) in Hlen. lia.
Defined.

(** X14. The status codes of the generation endpoint.  Every answer has one
    of the statuses 200, 400, 405, 429, 500 and 502, and the only way for
    the handler to end without an answer is a POST that reached the
    upstream call. *)
Theorem generation_status_codes w req st :
  (∃ c, statusOf (handler w req st).1 = Some c
        ∧ c ∈ [200; 400; 405; 429; 500; 502])
  ∨ ((handler w req st).1 = Thrown ∧ reachesUpstream w req st).
Proof.
  destruct (decide (method req = "POST")) as [Hm|Hm].
  2:{ left. rewrite handler_not_post by done. cbn [fst].
      case_bool_decide; eexists; (split; [reflexivity|repeat constructor]). }
  destruct (allowed (checkRateLimit (clock w) (getIP req) st).1) eqn:Ha.
  2:{ left. rewrite handler_denied by done.
      eexists; (split; [reflexivity|repeat constructor]). }
  destruct (handler_passed_cases w req st Hm Ha)
    as [[_ [E|E]] | [(_ & _ & E) | (key & s & Hs & Hlen & Hk & Hne & E)]];
    rewrite E.
  - left. eexists; (split; [reflexivity|repeat constructor]).
  - left. eexists; (split; [reflexivity|repeat constructor]).
  - left. eexists; (split; [reflexivity|repeat constructor]).
  - destruct (anthropic w key s).
    + right. split; [done|]. split_and!; [done|done|by exists s|by exists key].
    + left. eexists; (split; [reflexivity|repeat constructor]).
    + left. eexists; (split; [reflexivity|repeat constructor]).
Qed.

(** X15. The error text of an upstream failure.  When the upstream answers
    without success, the 502 carries the [message] of the [error] of the
    body it sent if that is there and truthy, and the fixed text 'Upstream
    API error' otherwise: in particular when the body could not be parsed
    (the handler then takes [{}]), when it is [null], and when it has no
    [error] or the [error] no [message]. *)
Theorem upstream_error_text w req st key s err :
  reachesUpstream w req st →
  ANTHROPIC_API_KEY w = Some key → promptOf req = JString s →
  anthropic w key s = UpstreamNotOk err →
  let message := optField "message" (optField "error" err) in
  (truthy message = true →
   (handler w req st).1
   = Responded {| status := 502; payload := Json (errorObject message) |})
  ∧ (truthy message = false →
     (handler w req st).1 = jsonError 502 "Upstream API error")
  ∧ (err = JObject ∅ ∨ err = JNull ∨ field "error" err = JUndefined
     ∨ field "message" (field "error" err) = JUndefined →
     truthy message = false)
  ∧ (∀ m, m ≠ "" →
       err = JObject {[ "error" := JObject {[ "message" := JString m ]} ]} →
       message = JString m ∧ truthy message = true).
Proof.
  intros (Hm & Ha & (s' & Hs' & Hlen) & key' & Hkey' & Hne) Hkey Hs Hup msg.
  rewrite Hs in Hs'. injection Hs' as <-.
  rewrite Hkey in Hkey'. injection Hkey' as <-.
  rewrite (handler_upstream w req st key s), Hup by done.
  fold msg. unfold or. split_and!.
  - by intros ->.
  - by intros ->.
  - unfold msg. intros [-> | [-> | [Herr | Hmsg]]]; [done|done| |].
    + destruct err; try done. cbn [optField]. by rewrite Herr.
    + destruct err; try done. cbn [optField].
      destruct (field "error" _) eqn:Hf; try done;
        cbn [optField]; try done; by rewrite Hmsg.
  - intros m Hmne ->. unfold msg. cbn.
    rewrite lookup_singleton_eq. cbn. rewrite lookup_singleton_eq. cbn.
    split; [done|]. by rewrite bool_decide_eq_true_2.
Qed.

(** An instance of [upstream_error_text]: the upstream answers with an
    error body that carries a message. *)
Lemma upstream_error_text_witness :
  let err := JObject {[ "error" := JObject {[ "message" := JString "Overloaded" ]} ]} in
  let w := withUpstream (λ _ _, UpstreamNotOk err) sampleWorld in
  (handler w longEnoughRequest (initial 0)).1
  = Responded {| status := 502;
                 payload := Json (errorObject (JString "Overloaded")) |}.
Proof.
  intros err w.
  refine (proj1 (upstream_error_text w longEnoughRequest (initial 0)
                   "sk-test" "abcdefghijklmnopqrstuvwxyz" err
                   _ eq_refl eq_refl eq_refl) eq_refl).
  split_and!; [reflexivity|reflexivity| |].
  - exists "abcdefghijklmnopqrstuvwxyz". split; [reflexivity|cbn; lia].
  - exists "sk-test". split; [reflexivity|discriminate].
Defined.

(** ** Further properties of the fetch handler *)

Section FetchHandlerMore.
Import Fetch.

Variable parseURL : string → option URL.
Variable fetchSite : string → FetchResult.

Lemma fetch_not_post req :
  method req ≠ "POST" →
  handler parseURL fetchSite req
  = (if bool_decide (method req = "OPTIONS")
     then Responded {| status := 200; payload := End |}
     else jsonError 405 "Method not allowed").
Proof.
  intros Hm. unfold Fetch.handler. case_bool_decide; [done|].
  by rewrite bool_decide_eq_true_2.
Qed.

Lemma relay_answers result :
  ∃ r, relay result = Responded r ∧ status r ∈ [200; 502].
Proof.
  destruct result as [m|response]; cbn.
  { eexists; (split; [reflexivity|repeat constructor]). }
  destruct (ok response); cbn;
    [|eexists; (split; [reflexivity|repeat constructor])].
  destruct (text response);
    eexists; (split; [reflexivity|repeat constructor]).
Qed.

(** X16. The fetch endpoint always answers.  Whatever the request, the
    parser and the network do, the handler ends with an answer (no
    exception escapes it, a thrown [fetch] or body read included), and its
    status is one of 200, 400, 405 and 502. *)
Theorem fetch_always_answers req :
  ∃ r, handler parseURL fetchSite req = Responded r
       ∧ status r ∈ [200; 400; 405; 502].
Proof.
  destruct (decide (method req = "POST")) as [Hm|Hm].
  2:{ rewrite fetch_not_post by done.
      case_bool_decide; eexists; (split; [reflexivity|repeat constructor]). }
  destruct (decide (truthy (urlOf req) = false ∨ isString (urlOf req) = false))
    as [Hbad|Hgood].
  { rewrite fetch_post_missing by done.
    eexists; (split; [reflexivity|repeat constructor]). }
  destruct (urlOf req) as [| | | |s| |] eqn:Hurl;
    try (exfalso; apply Hgood; by right).
  assert (Hs : s ≠ "").
  { intros ->. apply Hgood. by left. }
  rewrite (fetch_post_string parseURL fetchSite req s) by done.
  destruct (parseURL s) as [parsed|];
    [|eexists; (split; [reflexivity|repeat constructor])].
  destruct (allowedProtocol (protocol parsed));
    [|eexists; (split; [reflexivity|repeat constructor])].
  destruct (relay_answers (fetchSite (href parsed))) as (r & -> & Hr).
  exists r. split; [done|].
  apply elem_of_cons in Hr as [->|Hr]; [repeat constructor|].
  apply list_elem_of_singleton in Hr as ->. repeat constructor.
Qed.

(** X17. The two texts of a 400.  On a POST the answer is 400 'Missing url'
    exactly when [url] is falsy (absent, [null], [false], [0], the empty
    string) or not a string, and 400 'Invalid URL' exactly when it is a
    non-empty string that the parser refuses or parses with a protocol
    other than [http:] and [https:]. *)
Theorem fetch_error_texts req :
  method req = "POST" →
  (handler parseURL fetchSite req = jsonError 400 "Missing url"
   ↔ truthy (urlOf req) = false ∨ isString (urlOf req) = false)
  ∧ (handler parseURL fetchSite req = jsonError 400 "Invalid URL"
     ↔ ∃ s, urlOf req = JString s ∧ s ≠ ""
            ∧ (parseURL s = None
               ∨ ∃ parsed, parseURL s = Some parsed
                           ∧ protocol parsed ∉ ["http:"; "https:"])).
Proof.
  intros Hm.
  destruct (decide (truthy (urlOf req) = false ∨ isString (urlOf req) = false))
    as [Hbad|Hgood].
  { rewrite fetch_post_missing by done. split; [done|].
    split; [done|]. intros (s & Hs & Hne & _). exfalso.
    rewrite Hs in Hbad. cbn in Hbad.
    destruct Hbad as [Hbad|Hbad]; [|done].
    by rewrite bool_decide_eq_true_2 in Hbad. }
  destruct (urlOf req) as [| | | |s| |] eqn:Hurl;
    try (exfalso; apply Hgood; by right).
  assert (Hs : s ≠ "").
  { intros ->. apply Hgood. by left. }
  rewrite (fetch_post_string parseURL fetchSite req s) by done.
  destruct (parseURL s) as [parsed|] eqn:Hparse.
  - unfold allowedProtocol. case_bool_decide as Hp.
    + pose proof (relay_status (fetchSite (href parsed))) as Hnot.
      split; (split; [intros E; rewrite E in Hnot; by exfalso|]).
      * intros Hbad. by exfalso.
      * intros (s' & [= <-] & _ & [Hnone|(p' & Hp' & Hnotin)]);
          [congruence|].
        rewrite Hparse in Hp'. injection Hp' as <-. done.
    + split; split.
      * intros E. discriminate E.
      * intros Hbad. by exfalso.
      * intros _. exists s. split_and!; [done..|]. right. by exists parsed.
      * done.
  - split; split.
    + intros E. discriminate E.
    + intros Hbad. by exfalso.
    + intros _. exists s. split_and!; [done..|]. by left.
    + done.
Qed.

(** X18. One fetch, of the parsed address.  On a POST whose URL passed
    validation the answer is what the handler makes of the fetch of
    [parsed.href], the address as the parser normalised it, and of nothing
    else: any other network that does the same at that one address gives
    the same answer; and a body that cannot be read after a successful
    response is answered 502 like a fetch that failed. *)
Theorem fetch_asks_parsed_href req s parsed :
  method req = "POST" → urlOf req = JString s → s ≠ "" →
  parseURL s = Some parsed →
  protocol parsed ∈ ["http:"; "https:"] →
  handler parseURL fetchSite req = relay (fetchSite (href parsed))
  ∧ (∀ otherSite,
       otherSite (href parsed) = fetchSite (href parsed) →
       handler parseURL otherSite req = handler parseURL fetchSite req)
  ∧ (∀ response message,
       fetchSite (href parsed) = FetchReturns response →
       ok response = true → text response = BodyThrows message →
       handler parseURL fetchSite req
       = jsonError 502 ("Could not reach site: " +:+ message)).
Proof.
  intros Hm Hurl Hs Hparse Hproto.
  assert (E : ∀ site, handler parseURL site req = relay (site (href parsed))).
  { intros site. rewrite (fetch_post_string parseURL site req s) by done.
    rewrite Hparse. unfold allowedProtocol.
    by rewrite bool_decide_eq_true_2. }
  split_and!.
  - apply E.
  - intros otherSite Hsame. by rewrite !E, Hsame.
  - intros response message Hfetch Hok Htext. rewrite E, Hfetch. cbn.
    by rewrite Hok, Htext.
Qed.

(** X19. Methods other than POST never reach the parser or the network.
    OPTIONS is answered 200 with no body and any other method but POST 405,
    whatever the body holds. *)
Theorem fetch_other_methods req :
  method req ≠ "POST" →
  (method req = "OPTIONS" →
   handler parseURL fetchSite req
   = Responded {| status := 200; payload := End |})
  ∧ (method req ≠ "OPTIONS" →
     handler parseURL fetchSite req = jsonError 405 "Method not allowed").
Proof.
  intros Hm. rewrite fetch_not_post by done. split.
  - intros Ho. by rewrite bool_decide_eq_true_2.
  - intros Ho. by rewrite bool_decide_eq_false_2.
Qed.

End FetchHandlerMore.

(** An instance of [fetch_error_texts]: a request without a body. *)
Lemma fetch_error_texts_witness :
  Fetch.handler Fetch.exampleParseURL notFoundSite
    {| method := "POST"; headers := ∅; socket := None; body := JUndefined |}
  = jsonError 400 "Missing url".
Proof.
  apply (proj1 (fetch_error_texts Fetch.exampleParseURL notFoundSite
                  {| method := "POST"; headers := ∅; socket := None;
                     body := JUndefined |} eq_refl)).
  left. reflexivity.
Defined.

(** An instance of [fetch_asks_parsed_href]: the example address, on a
    network where every site answers 404. *)
Lemma fetch_asks_parsed_href_witness :
  Fetch.handler Fetch.exampleParseURL notFoundSite
    (fetchRequest (JString "https://example.com"))
  = Fetch.relay (notFoundSite "https://example.com/").
Proof.
  refine (proj1 (fetch_asks_parsed_href Fetch.exampleParseURL notFoundSite
                   (fetchRequest (JString "https://example.com"))
                   "https://example.com"
                   {| Fetch.protocol := "https:";
                      Fetch.href := "https://example.com/" |}
                   eq_refl eq_refl _ eq_refl _)).
  - discriminate.
  - apply list_elem_of_further, list_elem_of_here.
Defined.

(** An instance of [fetch_other_methods]: a GET. *)
Lemma fetch_other_methods_witness :
  Fetch.handler Fetch.exampleParseURL notFoundSite
    {| method := "GET"; headers := ∅; socket := None; body := JUndefined |}
  = jsonError 405 "Method not allowed".
Proof.
  refine (proj2 (fetch_other_methods Fetch.exampleParseURL notFoundSite
                   {| method := "GET"; headers := ∅; socket := None;
                      body := JUndefined |} _) _); discriminate.
Defined.

(** ** Further properties of the source identifier *)

Lemma trimStart_id s : startsWithSpace s = false → trimStart s = s.
Proof. destruct s as [|c s]; [done|]. cbn. by intros ->. Qed.

Lemma trimEnd_id s : endsWithSpace s = false → trimEnd s = s.
Proof.
  induction s as [|c s IH]; [done|]. intros Hend. cbn [trimEnd].
  destruct s as [|a s].
  - cbn in Hend |- *. by rewrite Hend.
  - rewrite IH by done. done.
Qed.

Lemma trimStart_allSpace s : allSpace s = true → trimStart s = "".
Proof.
  induction s as [|c s IH]; [done|]. cbn.
  destruct (isSpace c); [exact IH|done].
Qed.

Lemma allSpace_app a b :
  allSpace (a +:+ b) = allSpace a && allSpace b.
Proof.
  induction a as [|c a IH]; [done|].
  change (allSpace (String c (a +:+ b))
          = allSpace (String c a) && allSpace b).
  cbn [allSpace]. rewrite IH. by rewrite andb_assoc.
Qed.

Lemma hasComma_app a b : hasComma (a +:+ b) = hasComma a || hasComma b.
Proof.
  induction a as [|c a IH]; [done|].
  change (hasComma (String c (a +:+ b))
          = hasComma (String c a) || hasComma b).
  cbn [hasComma]. rewrite IH. by rewrite orb_assoc.
Qed.

Lemma hasComma_trim s : hasComma s = false → hasComma (trim s) = false.
Proof.
  destruct (trim_spec s) as (pre & post & Hs & _). intros Hno.
  rewrite Hs, !hasComma_app in Hno.
  apply orb_false_elim in Hno as [_ Hno].
  by apply orb_false_elim in Hno as [Hno _].
Qed.

Lemma firstField_app a b :
  hasComma a = false → firstField (a +:+ String ","%char b) = a.
Proof.
  induction a as [|c a IH]; intros Hno.
  - change (firstField (String ","%char b) = ""). cbn.
    by rewrite bool_decide_eq_true_2.
  - cbn [hasComma] in Hno. apply orb_false_elim in Hno as [Hc Hno].
    change (firstField (String c (a +:+ String ","%char b)) = String c a).
    cbn [firstField]. rewrite Hc. by rewrite IH.
Qed.

Lemma orElse_cases a b :
  (∃ s, a = Some s ∧ s ≠ "" ∧ orElse a b = Some s)
  ∨ ((∀ s, a = Some s → s = "") ∧ orElse a b = b).
Proof.
  destruct a as [s|]; [|by right].
  destruct (decide (s = "")) as [->|Hne].
  - right. split; [by intros ? [= <-]|done].
  - left. exists s. by rewrite orElse_nonempty.
Qed.

Lemma getIP_cases req :
  (∃ s, forwardedFor req s ∧ getIP req = s)
  ∨ (∃ s, realIP req s ∧ getIP req = s)
  ∨ (∃ s, peerAddress req s ∧ getIP req = s)
  ∨ getIP req = "unknown".
Proof.
  unfold getIP.
  destruct (orElse_cases
              ((λ v, trim (firstField v)) <$> headers req !! "x-forwarded-for")
              (headers req !! "x-real-ip"))
    as [(s & Hs & Hne & ->) | [_ ->]].
  { left. exists s. rewrite !orElse_nonempty by done. split; [|done].
    destruct (headers req !! "x-forwarded-for") as [v|] eqn:Hv; [|done].
    injection Hs as <-. by exists v. }
  destruct (orElse_cases (headers req !! "x-real-ip")
              (socket req ≫= remoteAddress))
    as [(s & Hs & Hne & ->) | [_ ->]].
  { right; left. exists s. by rewrite !orElse_nonempty. }
  destruct (orElse_cases (socket req ≫= remoteAddress) (Some "unknown"))
    as [(s & Hs & Hne & ->) | [_ ->]].
  { right; right; left. exists s. split; [|done].
    destruct (socket req) as [sock|] eqn:Hsock; [|done].
    by exists sock. }
  by repeat right.
Qed.

(** X20. The identifier is never empty.  Whatever the headers and the
    socket hold, [getIP] yields a non-empty string, taken from one of the
    three sources or else the string "unknown"; so the limiter never keys
    a window by the empty string. *)
Theorem getIP_never_empty req :
  getIP req ≠ ""
  ∧ ((∃ s, forwardedFor req s ∧ getIP req = s)
     ∨ (∃ s, realIP req s ∧ getIP req = s)
     ∨ (∃ s, peerAddress req s ∧ getIP req = s)
     ∨ getIP req = "unknown").
Proof.
  split; [|apply getIP_cases].
  destruct (getIP_cases req)
    as [(s & (v & _ & _ & Hne) & ->) | [(s & [_ Hne] & ->)
        | [(s & (sock & _ & _ & Hne) & ->) | ->]]]; done.
Qed.

(** X21. [trim] as the handler uses it.  Trimming is idempotent, it yields
    the empty string exactly on strings of white space only (so a
    forwarded-for header whose first field is blank falls through to the
    next source), and it leaves alone a string with no white space at
    either end. *)
Theorem trim_properties s :
  trim (trim s) = trim s
  ∧ (trim s = "" ↔ allSpace s = true)
  ∧ (startsWithSpace s = false → endsWithSpace s = false → trim s = s).
Proof.
  destruct (trim_spec s) as (pre & post & Hs & Hpre & Hpost & Hstart & Hend).
  assert (Hid : ∀ t, startsWithSpace t = false → endsWithSpace t = false →
                     trim t = t).
  { intros t Ht1 Ht2. unfold trim. rewrite (trimStart_id t) by done.
    by apply trimEnd_id. }
  split_and!.
  - by apply Hid.
  - split.
    + intros He. rewrite He in Hs. rewrite Hs, !allSpace_app.
      by rewrite Hpre, Hpost.
    + intros Hall. unfold trim. by rewrite trimStart_allSpace.
  - apply Hid.
Qed.

(** An instance of the third part of [trim_properties]. *)
Lemma trim_properties_witness : trim "1.2.3.4" = "1.2.3.4".
Proof.
  apply (proj2 (proj2 (trim_properties "1.2.3.4"))); reflexivity.
Defined.

(** X22. An identifier taken from the forwarded-for header is clean: it
    holds no comma and has no white space at either end, and it is the
    identifier of the request. *)
Theorem forwarded_identifier_is_clean req s :
  forwardedFor req s →
  getIP req = s
  ∧ hasComma s = false
  ∧ startsWithSpace s = false ∧ endsWithSpace s = false.
Proof.
  intros (v & Hv & -> & Hne).
  destruct (firstField_spec v) as (rest & _ & Hno & _).
  destruct (trim_spec (firstField v)) as (_ & _ & _ & _ & _ & Hstart & Hend).
  split_and!; [|by apply hasComma_trim|done|done].
  unfold getIP. rewrite Hv. cbn [fmap option_fmap option_map].
  by rewrite !orElse_nonempty.
Qed.

(** An instance of [forwarded_identifier_is_clean]. *)
Lemma forwarded_identifier_is_clean_witness :
  getIP shortPromptRequest = "1.2.3.4"
  ∧ hasComma "1.2.3.4" = false
  ∧ startsWithSpace "1.2.3.4" = false ∧ endsWithSpace "1.2.3.4" = false.
Proof.
  apply (forwarded_identifier_is_clean shortPromptRequest "1.2.3.4").
  exists "1.2.3.4". split_and!; [reflexivity|reflexivity|discriminate].
Defined.

(** X23. The first hop decides.  When the forwarded-for header is a list,
    only what stands before its first comma counts: if that part, trimmed,
    is not empty it is the identifier, whatever follows the comma and
    whatever the real-IP header and the socket say. *)
Theorem first_hop_decides req first others :
  headers req !! "x-forwarded-for" = Some (first +:+ String ","%char others) →
  hasComma first = false → trim first ≠ "" →
  getIP req = trim first.
Proof.
  intros Hv Hno Hne. unfold getIP. rewrite Hv.
  cbn [fmap option_fmap option_map]. rewrite firstField_app by done.
  by rewrite !orElse_nonempty.
Qed.

(** An instance of [first_hop_decides]: a client address followed by two
    proxies. *)
Lemma first_hop_decides_witness :
  getIP {| method := "POST";
           headers := {[ "x-forwarded-for" := "1.2.3.4, 10.0.0.1, 10.0.0.2";
                         "x-real-ip" := "10.0.0.2" ]};
           socket := None; body := JNull |}
  = trim "1.2.3.4".
Proof.
  apply (first_hop_decides _ "1.2.3.4" " 10.0.0.1, 10.0.0.2");
    [reflexivity|reflexivity|discriminate].
Defined.

(** ** Further properties of the retry advice and of denied calls *)

Lemma ceil_div_step a b : 0 < b → ceil_div (a - b) b = ceil_div a b - 1.
Proof.
  intros Hb.
  pose proof (ceil_div_spec a b Hb). pose proof (ceil_div_spec (a - b) b Hb).
  nia.
Qed.

Lemma ceil_div_mono a a' b : 0 < b → a ≤ a' → ceil_div a b ≤ ceil_div a' b.
Proof.
  intros Hb Hle.
  pose proof (ceil_div_spec a b Hb). pose proof (ceil_div_spec a' b Hb).
  nia.
Qed.

(** X24. The advice counts down.  Computed from the same surviving
    timestamps, the retry-after value never grows as time passes, and it is
    exactly one less a minute later. *)
Theorem retry_counts_down now now' timestamps :
  now ≤ now' →
  retryAfter now' timestamps ≤ retryAfter now timestamps
  ∧ retryAfter (now + 60000) timestamps = retryAfter now timestamps - 1.
Proof.
  intros Hle. unfold retryAfter. split.
  - apply ceil_div_mono; lia.
  - rewrite <- ceil_div_step by lia. f_equal. lia.
Qed.

(** An instance of [retry_counts_down]: 57 minutes at 3 minutes, 56 a
    minute later. *)
Lemma retry_counts_down_witness :
  retryAfter 240000 [0; 60000; 120000] ≤ retryAfter 180000 [0; 60000; 120000]
  ∧ retryAfter (180000 + 60000) [0; 60000; 120000]
    = retryAfter 180000 [0; 60000; 120000] - 1.
Proof. apply (retry_counts_down 180000 240000). lia. Defined.

(** X25. Asking again while denied changes nothing in the store.  Along any
    sequence of calls that are all denied, by whichever identifiers and at
    whatever times, every stored sequence stays exactly as it was: denied
    calls neither add timestamps nor drop expired ones, so they cannot
    postpone the moment an identifier is allowed again. *)
Theorem denied_calls_keep_store calls : ∀ st,
  Forall (λ v, allowed v = false) (run calls st).1 →
  ipStore (run calls st).2 = ipStore st.
Proof.
  induction calls as [|[now ip] rest IH]; intros st Hden; [done|].
  rewrite run_cons in Hden |- *. cbn [fst snd] in *.
  apply Forall_cons in Hden as [Hnow Hrest].
  rewrite IH by done.
  destruct (check_cases now ip st) as [E | [E | (_ & _ & E)]];
    rewrite E in Hnow |- *; cbn [snd]; [apply ipStore_dailyTick..|done].
Qed.

(** An instance of [denied_calls_keep_store]: two more calls against a
    full window. *)
Lemma denied_calls_keep_store_witness :
  let st := {| ipStore := {[ "1.2.3.4" := [0; 60000; 120000] ]};
               dailyCount := 3; dailyReset := DAY_MS |} in
  ipStore (run [(180000, "1.2.3.4"); (240000, "1.2.3.4")] st).2 = ipStore st.
Proof.
  intros st.
  apply (denied_calls_keep_store
           [(180000, "1.2.3.4"); (240000, "1.2.3.4")] st).
  vm_compute. repeat constructor.
Defined.
